(** * AI-Integrated LMS API: one-time codes, sessions, progress, leaderboard

    A shallow embedding of the logic-bearing handlers of [main.py]
    ([request_otp], [verify_otp], [upsert_progress], [leaderboard]), of the
    handlers that list and edit what they store ([_to_dict], [list_users],
    [update_user], [list_courses], [list_lessons], [progress_by_user],
    [list_messages]) and of the pydantic models of [schemas.py] they use,
    over a small model of the document store they talk to.

    Conventions
    - a document is a finite map from field names to BSON-like values;
    - a collection is the list of its documents in natural (insertion) order,
      the position of a document standing for its implicit [_id]; where a
      handler hands the [_id] of an inserted document back ([update_user]),
      the document carries the [_id] the store generates;
    - [datetime] values are absolute instants, counted in microseconds (the
      resolution of Python's [datetime]); the store is taken to hand back the
      instants it was given;
    - a stored number is written as an integer: the model holds the
      integer-valued numbers ([int] points, and the [float] scores without a
      fractional part); scores are doubles, and the leaderboard adds them as
      doubles, rounding included ([round_double]);
    - every value a handler obtains from its surroundings (a clock reading,
      [secrets.randbelow], [secrets.token_hex]) is an argument of the handler,
      in the order the handler asks for it. *)

From stdpp Require Import gmap strings list fin_maps sorting.
From Stdlib Require Import ZArith Lia Ascii.

#[local] Open Scope Z_scope.

(** ** Values and documents *)

Inductive value :=
| VNull
| VBool (b : bool)
| VNum (n : Z)
| VStr (s : string)
| VDate (t : Z).

#[global] Instance value_eq_dec : EqDecision value.
Proof. solve_decision. Defined.

Abbreviation doc := (gmap string value).

(** Python truthiness of a stored value ([bool(v)]); a [datetime] is always
    true. *)
Definition truthy (v : value) : bool :=
  match v with
  | VNull => false
  | VBool b => b
  | VNum n => negb (n =? 0)
  | VStr s => negb (String.eqb s EmptyString)
  | VDate _ => true
  end.

(** [d.get(k)]: the value, or [None] (here [VNull]) when the key is absent. *)
Definition get (d : doc) (k : string) : value := default VNull (d !! k).

(** Truthiness of what [find_one] returns: [None] and the empty dict are
    false. *)
Definition truthy_rec (r : option doc) : bool :=
  match r with
  | None => false
  | Some d => negb (bool_decide (d = ∅))
  end.

(** ** Queries

    A filter is the dict literal passed to the driver, one equality condition
    per key. A condition [k: v] selects the documents whose field [k] equals
    [v]; the condition [k: None] also selects the documents without the
    field. *)

Definition query := list (string * value).

Definition matches_cond (d : doc) (c : string * value) : bool :=
  match d !! c.1 with
  | Some w => bool_decide (w = c.2)
  | None => bool_decide (c.2 = VNull)
  end.

Definition matches (flt : query) (d : doc) : bool :=
  forallb (matches_cond d) flt.

(** [col.find_one(flt)]: the first document, in natural order, that the
    filter selects. *)
Fixpoint find_one (flt : query) (col : list doc) : option doc :=
  match col with
  | [] => None
  | d :: rest => if matches flt d then Some d else find_one flt rest
  end.

(** [$set] and [$currentDate] applied to one document. *)
Definition apply_update (set : doc) (now : Z) (d : doc) : doc :=
  <["updated_at" := VDate now]> (set ∪ d).

(** The first selected document is replaced by its update; [None] when the
    filter selects nothing. *)
Fixpoint update_first (flt : query) (upd : doc → doc) (col : list doc)
  : option (list doc) :=
  match col with
  | [] => None
  | d :: rest =>
      if matches flt d then Some (upd d :: rest)
      else cons d <$> update_first flt upd rest
  end.

(** [col.update_one(flt, {"$set": set, "$currentDate": {"updated_at": True}},
    upsert=True)]: with no selected document, a document made of the filter's
    equality conditions is inserted and updated. *)
Definition update_one_upsert (flt : query) (set : doc) (now : Z)
    (col : list doc) : list doc :=
  match update_first flt (apply_update set now) col with
  | Some col' => col'
  | None => col ++ [apply_update set now (list_to_map flt)]
  end.

(** ** The store and the handlers' effects *)

Abbreviation database := (gmap string (list doc)).

(** [db[name]]; a collection that was never written is empty. *)
Definition coll (d : database) (name : string) : list doc :=
  default [] (d !! name).

(** What a call can end with instead of an answer: an [HTTPException] a
    handler raises, the framework's [RequestValidationError] (HTTP 422, for an
    argument that fails the validation its handler declares; the handlers
    below receive validated arguments), Python's [TypeError], the driver's
    [OperationFailure] for a command the store rejects, and the failure of an
    unreachable store. *)
Inductive exn :=
| HTTPException (status_code : Z) (detail : string)
| RequestValidationError
| TypeError
| OperationFailure
| StorageUnavailable.

#[global] Instance exn_eq_dec : EqDecision exn.
Proof. solve_decision. Defined.

Inductive result (A : Type) :=
| Ok (a : A)
| Raise (e : exn).
Arguments Ok {A} a.
Arguments Raise {A} e.

(** The module-level [db] is [None] when the service runs unconfigured and
    otherwise the store with its current content. A handler maps it to its
    outcome and the store it leaves. *)
Definition M (A : Type) : Type := option database → result A * option database.

#[global] Instance M_ret : MRet M := λ A a w, (Ok a, w).
#[global] Instance M_bind : MBind M := λ A B f m w,
  match m w with
  | (Ok a, w') => f a w'
  | (Raise e, w') => (Raise e, w')
  end.

Definition raise {A} (e : exn) : M A := λ w, (Raise e, w).

Definition _collection (name : string) : M (list doc) := λ w,
  match w with
  | None => (Raise (HTTPException 500 "Database not configured"), w)
  | Some d => (Ok (coll d name), w)
  end.

(** Modelled from the spec: [create_document] of the repository's [database]
    module, which is imported by [main.py] and absent from the sources. The
    spec's store adapter persists a new record under an implicit identifier
    and lets a storage failure propagate as a storage-unavailable failure:
    the dumped model is appended to the named collection and its position is
    returned. *)
Definition create_document (name : string) (data : doc) : M nat := λ w,
  match w with
  | None => (Raise StorageUnavailable, w)
  | Some d =>
      (Ok (length (coll d name)),
       Some (<[name := coll d name ++ [data]]> d))
  end.

(** [update_one] on a named collection of a configured store. *)
Definition update_one (name : string) (flt : query) (set : doc) (now : Z)
  : M unit := λ w,
  match w with
  | None => (Raise (HTTPException 500 "Database not configured"), w)
  | Some d =>
      (Ok tt, Some (<[name := update_one_upsert flt set now (coll d name)]> d))
  end.

(** ** Formatting of the code: [f"{n:06d}"]

    The decimal digits of [n], most significant first. A number has at most
    as many decimal digits as binary ones, which bounds the recursion. *)

Definition digit_char (d : Z) : ascii := ascii_of_nat (48 + Z.to_nat d).

Fixpoint decimal_fuel (fuel : nat) (n : Z) (acc : string) : string :=
  match fuel with
  | O => acc
  | S fuel' =>
      let acc' := String (digit_char (n mod 10)) acc in
      if n / 10 =? 0 then acc' else decimal_fuel fuel' (n / 10) acc'
  end.

Definition decimal (n : Z) : string :=
  decimal_fuel (S (Z.to_nat (Z.log2 n))) n EmptyString.

Fixpoint zeros (k : nat) : string :=
  match k with
  | O => EmptyString
  | S k' => String "0"%char (zeros k')
  end.

Definition zfill (width : nat) (s : string) : string :=
  zeros (width - String.length s) +:+ s.

(** The format specification [0{width}d]: zero padding after the sign. *)
Definition format_0d (width : nat) (n : Z) : string :=
  if n <? 0 then String "-"%char (zfill (width - 1) (decimal (- n)))
  else zfill width (decimal n).

Definition is_digit (c : ascii) : bool :=
  let k := nat_of_ascii c in (48 <=? k)%nat && (k <=? 57)%nat.

Fixpoint all_digits (s : string) : bool :=
  match s with
  | EmptyString => true
  | String c s' => is_digit c && all_digits s'
  end.

(** The number a string of decimal digits denotes. *)
Fixpoint digits_value (acc : Z) (s : string) : Z :=
  match s with
  | EmptyString => acc
  | String c s' => digits_value (acc * 10 + (Z.of_nat (nat_of_ascii c) - 48)) s'
  end.

(** [secrets.randbelow(n)]: a draw from the system's entropy, reduced to
    [0 <= r < n]. *)
Definition randbelow (n : Z) (entropy : Z) : Z := entropy mod n.

(** [timedelta(minutes=m)], in microseconds. *)
Definition timedelta_minutes (m : Z) : Z := m * 60 * 1000000.

(** ** The models of [schemas.py] *)

Module OTP.
Record t := { email : string; code : string; expires_at : Z }.
Definition model_dump (m : t) : doc :=
  {[ "email" := VStr (email m); "code" := VStr (code m);
     "expires_at" := VDate (expires_at m) ]}.
End OTP.

Module Session.
Record t := { email : string; token : string; created_at : Z }.
Definition model_dump (m : t) : doc :=
  {[ "email" := VStr (email m); "token" := VStr (token m);
     "created_at" := VDate (created_at m) ]}.
End Session.

Module User.
Record t := {
  name : option string;
  email : string;
  role : string;
  avatar_url : option string;
  locale : string;
  points : Z
}.
(** [User(email=e)]: every other field takes its default. *)
Definition of_email (e : string) : t :=
  {| name := None; email := e; role := "student"; avatar_url := None;
     locale := "en"; points := 0 |}.
Definition opt_str (o : option string) : value :=
  match o with Some s => VStr s | None => VNull end.
Definition model_dump (m : t) : doc :=
  {[ "name" := opt_str (name m); "email" := VStr (email m);
     "role" := VStr (role m); "avatar_url" := opt_str (avatar_url m);
     "locale" := VStr (locale m); "points" := VNum (points m) ]}.
End User.

Module Progress.
(** An optional field is [None] when the request did not supply it
    (pydantic keeps it out of [model_fields_set]); a supplied [lesson_id]
    or [score] may still be [null]. A [score] is a [float]; the model holds
    the scores without a fractional part, written as integers. *)
Record t := {
  user_email : string;
  course_id : string;
  lesson_id : option (option string);
  completed : option bool;
  score : option (option Z)
}.
(** [body.lesson_id]: the supplied value, or the default [None]. *)
Definition lesson_id_value (m : t) : value :=
  match lesson_id m with
  | Some (Some l) => VStr l
  | _ => VNull
  end.
Definition set_opt (k : string) (o : option value) (d : doc) : doc :=
  match o with Some v => <[k := v]> d | None => d end.
(** [model_dump(exclude_unset=True)]: the required fields and the supplied
    optional ones. *)
Definition model_dump_exclude_unset (m : t) : doc :=
  set_opt "lesson_id" (User.opt_str <$> lesson_id m)
    (set_opt "completed" (VBool <$> completed m)
       (set_opt "score" ((λ s, match s with Some n => VNum n | None => VNull end)
                           <$> score m)
          {[ "user_email" := VStr (user_email m);
             "course_id" := VStr (course_id m) ]})).
End Progress.

(** ** The handlers *)

Module RequestOTPBody.
Record t := { email : string }.
End RequestOTPBody.

(** [POST /auth/request-otp]. [entropy] feeds [secrets.randbelow], [now] is
    the clock reading. *)
Definition request_otp (entropy now : Z) (body : RequestOTPBody.t) : M doc :=
  let code := format_0d 6 (randbelow 1000000 entropy) in
  let expires := now + timedelta_minutes 10 in
  _ ← create_document "otp"
        (OTP.model_dump {| OTP.email := RequestOTPBody.email body;
                           OTP.code := code; OTP.expires_at := expires |});
  mret ({[ "sent" := VBool true; "email" := VStr (RequestOTPBody.email body);
           "code" := VStr code ]} : doc).

Module VerifyOTPBody.
Record t := { email : string; code : string }.
End VerifyOTPBody.

(** [v < datetime.now(timezone.utc)]: only a [datetime] compares with a
    [datetime]. *)
Definition lt_datetime (v : value) (now : Z) : M bool :=
  match v with
  | VDate t => mret (t <? now)
  | _ => raise TypeError
  end.

(** [POST /auth/verify-otp]. [now] is the clock reading of the expiry test,
    [token] what [secrets.token_hex(16)] returns, [created] the clock reading
    that stamps the session. *)
Definition verify_otp (now : Z) (token : string) (created : Z)
    (body : VerifyOTPBody.t) : M doc :=
  col ← _collection "otp";
  let rec := find_one [("email", VStr (VerifyOTPBody.email body));
                       ("code", VStr (VerifyOTPBody.code body))] col in
  if negb (truthy_rec rec) then raise (HTTPException 400 "Invalid code") else
  let rec := default ∅ rec in
  expired ← (if truthy (get rec "expires_at")
             then lt_datetime (get rec "expires_at") now
             else mret false);
  if (expired : bool) then raise (HTTPException 400 "Code expired") else
  _ ← create_document "session"
        (Session.model_dump {| Session.email := VerifyOTPBody.email body;
                               Session.token := token;
                               Session.created_at := created |});
  users ← _collection "user";
  _ ← (if negb (truthy_rec
                  (find_one [("email", VStr (VerifyOTPBody.email body))] users))
       then _ ← create_document "user"
                  (User.model_dump (User.of_email (VerifyOTPBody.email body)));
            mret tt
       else mret tt);
  mret ({[ "token" := VStr token ]} : doc).

(** [POST /progress]. [now] is the instant [$currentDate] writes. *)
Definition upsert_progress (now : Z) (body : Progress.t) : M doc :=
  _ ← _collection "progress";
  _ ← update_one "progress"
        [("user_email", VStr (Progress.user_email body));
         ("course_id", VStr (Progress.course_id body));
         ("lesson_id", Progress.lesson_id_value body)]
        (Progress.model_dump_exclude_unset body) now;
  mret ({[ "ok" := VBool true ]} : doc).

(** *** The aggregation pipeline of the leaderboard *)

(** A row between two stages: the group key and the accumulated sum. *)
Record agg_row := { _id : value; score : Z }.

(** [{"$ifNull": ["$field", dflt]}]: the default replaces a missing or null
    field. *)
Definition ifNull (v : option value) (dflt : value) : value :=
  match v with
  | None | Some VNull => dflt
  | Some w => w
  end.

(** What a value adds to a [$sum]: itself when it is a number, nothing
    otherwise. *)
Definition summand (v : value) : Z :=
  match v with
  | VNum n => n
  | _ => 0
  end.

(** Scores are [float]s ([schemas.py]), stored as doubles, and [$sum] adds
    doubles. An integer is a double when 53 bits hold its significant digits;
    the sum of two such doubles is the integer sum rounded to the nearest
    double, to the one with the even significand when two are as near. Up to
    [2^53] in magnitude every integer is a double and nothing is rounded.
    (Sums beyond the largest finite double, near [1.8e308], are outside the
    model.) *)
Definition round_double (z : Z) : Z :=
  if Z.abs z <=? 2 ^ 53 then z else
  let e := Z.log2 (Z.abs z) - 52 in
  let q := z / 2 ^ e in
  let r := z mod 2 ^ e in
  let half := 2 ^ (e - 1) in
  if r <? half then q * 2 ^ e
  else if half <? r then (q + 1) * 2 ^ e
  else if Z.even q then q * 2 ^ e
  else (q + 1) * 2 ^ e.

Definition double_add (a b : Z) : Z := round_double (a + b).

(** The accumulator of a group starts at 0 and takes the summands of the
    group one after the other. *)
Fixpoint group_add (key : value) (x : Z) (rows : list agg_row) : list agg_row :=
  match rows with
  | [] => [{| _id := key; score := double_add 0 x |}]
  | r :: rest =>
      if decide (_id r = key)
      then {| _id := key; score := double_add (score r) x |} :: rest
      else r :: group_add key x rest
  end.

(** [{"$group": {"_id": "$user_email", "score": {"$sum": {"$ifNull":
    ["$score", 0]}}}}]; a document without [user_email] falls in the group of
    [null]. Groups come out in the order their first document is met, and the
    scores of a group are added in the order of the collection; the store
    fixes neither order, and the statements below hold whatever it is. *)
Definition stage_group (col : list doc) : list agg_row :=
  foldl (λ rows d,
           group_add (get d "user_email")
                     (summand (ifNull (d !! "score") (VNum 0))) rows)
        [] col.

(** [{"$sort": {"score": -1}}]. *)
Definition score_desc (a b : agg_row) : Prop := score b ≤ score a.

#[global] Instance score_desc_dec a b : Decision (score_desc a b).
Proof. unfold score_desc. apply _. Defined.

#[global] Instance score_desc_total : Total score_desc.
Proof. intros a b. unfold score_desc. lia. Qed.

#[global] Instance score_desc_trans : Transitive score_desc.
Proof. intros a b c. unfold score_desc. lia. Qed.

Definition stage_sort (rows : list agg_row) : list agg_row :=
  merge_sort score_desc rows.

(** [{"$limit": n}]: the store accepts a positive limit only and fails the
    whole command otherwise. *)
Definition stage_limit (n : Z) (rows : list agg_row) : result (list agg_row) :=
  if n <=? 0 then Raise OperationFailure else Ok (take (Z.to_nat n) rows).

Definition aggregate (limit : Z) (col : list doc) : M (list agg_row) := λ w,
  (stage_limit limit (stage_sort (stage_group col)), w).

(** [{"user_email": a["_id"], "score": a["score"]}]. *)
Definition leaderboard_entry (a : agg_row) : doc :=
  {[ "user_email" := _id a; "score" := VNum (score a) ]}.

(** [GET /leaderboard]; [limit] is declared an [int] and nothing more. *)
Definition leaderboard (limit : Z) : M (list doc) :=
  col ← _collection "progress";
  agg ← aggregate limit col;
  mret (map leaderboard_entry agg).

(** ** Sequences of calls *)

Inductive call :=
| RequestOTP (entropy now : Z) (body : RequestOTPBody.t)
| VerifyOTP (now : Z) (token : string) (created : Z) (body : VerifyOTPBody.t)
| UpsertProgress (now : Z) (body : Progress.t)
| Leaderboard (limit : Z).

(** The store a call leaves, whatever it answers. *)
Definition exec (c : call) (w : option database) : option database :=
  match c with
  | RequestOTP entropy now body => (request_otp entropy now body w).2
  | VerifyOTP now token created body => (verify_otp now token created body w).2
  | UpsertProgress now body => (upsert_progress now body w).2
  | Leaderboard limit => (leaderboard limit w).2
  end.

Definition run (cs : list call) (w : option database) : option database :=
  foldl (λ w c, exec c w) w cs.

(** ** Vocabulary of the statements *)

(** The failures the specification names, as the service raises them. *)
Definition InvalidCode : exn := HTTPException 400 "Invalid code".
Definition CodeExpired : exn := HTTPException 400 "Code expired".
Definition InvalidArgument : exn := RequestValidationError.

(** The filters the handlers build. *)
Definition otp_query (e c : string) : query :=
  [("email", VStr e); ("code", VStr c)].
Definition email_query (e : string) : query := [("email", VStr e)].
Definition progress_key (u c : string) (l : option string) : query :=
  [("user_email", VStr u); ("course_id", VStr c); ("lesson_id", User.opt_str l)].

(** The key a progress call addresses: [body.lesson_id] is [None] when the
    call supplies no lesson. *)
Definition body_lesson (body : Progress.t) : option string :=
  match Progress.lesson_id body with
  | Some l => l
  | None => None
  end.
Definition body_key (body : Progress.t) : query :=
  progress_key (Progress.user_email body) (Progress.course_id body)
    (body_lesson body).

(** The records a filter selects. *)
Definition select (flt : query) (col : list doc) : list doc :=
  filter (λ r, matches flt r) col.

(** The code an issue call generates from its draw. *)
Definition issued_code (entropy : Z) : string :=
  format_0d 6 (randbelow 1000000 entropy).

Definition otp_record (e c : string) (expires : Z) : doc :=
  OTP.model_dump {| OTP.email := e; OTP.code := c; OTP.expires_at := expires |}.
Definition session_record (e tok : string) (created : Z) : doc :=
  Session.model_dump
    {| Session.email := e; Session.token := tok; Session.created_at := created |}.
Definition default_account (e : string) : doc :=
  User.model_dump (User.of_email e).

(** The store a successful verification leaves: one more session, and a
    default account when the identity had none. *)
Definition with_session (d : database) (e tok : string) (created : Z)
  : database :=
  <["session" := coll d "session" ++ [session_record e tok created]]> d.
Definition with_account (d : database) (e : string) : database :=
  match find_one (email_query e) (coll d "user") with
  | Some _ => d
  | None => <["user" := coll d "user" ++ [default_account e]]> d
  end.
Definition verified (d : database) (e tok : string) (created : Z) : database :=
  with_account (with_session d e tok created) e.

(** At most one account per identity, at most one progress record per key. *)
Definition accounts_unique (d : database) : Prop :=
  ∀ e, (length (select (email_query e) (coll d "user")) ≤ 1)%nat.
Definition progress_unique (d : database) : Prop :=
  ∀ u c l, (length (select (progress_key u c l) (coll d "progress")) ≤ 1)%nat.





(** ** The handlers that list and edit stored records

    These handlers hand documents back to the caller. A document the driver
    returns carries its [_id]; the stores of the statements are arbitrary, so
    their documents may carry one, and [_to_dict] deals with it. *)

Module UserBody.
(** A [User] parsed from a request body. An optional field is [None] when the
    request did not supply it. *)
Record t := {
  name : option (option string);
  email : string;
  role : option string;
  avatar_url : option (option string);
  locale : option string;
  points : option Z
}.
(** [model_dump(exclude_unset=True)]. *)
Definition model_dump_exclude_unset (m : t) : doc :=
  Progress.set_opt "name" (User.opt_str <$> name m)
    (Progress.set_opt "role" (VStr <$> role m)
       (Progress.set_opt "avatar_url" (User.opt_str <$> avatar_url m)
          (Progress.set_opt "locale" (VStr <$> locale m)
             (Progress.set_opt "points" (VNum <$> points m)
                {[ "email" := VStr (email m) ]})))).
End UserBody.

(** Python truthiness of an optional string argument. *)
Definition truthy_str (o : option string) : bool :=
  match o with
  | Some s => negb (String.eqb s EmptyString)
  | None => false
  end.

(** [list(col.find(flt).limit(n))] for a positive [n]. *)
Definition find_limit (flt : query) (n : nat) (col : list doc) : list doc :=
  take n (select flt col).

(** [col.update_one(flt, {"$set": set}, upsert=True)]. The first document
    that matches takes the fields of [set]; when none matches, the store
    inserts a document made of the fields of the filter and of [set], under
    the [_id] it generates for it, [oid]. *)
Definition update_one_set_upsert (flt : query) (set : doc) (oid : value)
    (col : list doc) : list doc :=
  match update_first flt (λ d, set ∪ d) col with
  | Some col' => col'
  | None => col ++ [set ∪ (list_to_map flt ∪ {[ "_id" := oid ]})]
  end.

Definition update_one_set (name : string) (flt : query) (set : doc)
    (oid : value) : M unit :=
  λ w,
  match w with
  | None => (Raise (HTTPException 500 "Database not configured"), w)
  | Some d =>
      (Ok tt,
       Some (<[name := update_one_set_upsert flt set oid (coll d name)]> d))
  end.

(** ** Sorted listings

    The order in which the store compares values of different types (null,
    numbers, strings, booleans, dates), and within one type; strings compare
    byte by byte. A missing sort field counts as null. *)

Definition bson_rank (v : value) : Z :=
  match v with
  | VNull => 1
  | VNum _ => 2
  | VStr _ => 3
  | VBool _ => 8
  | VDate _ => 9
  end.

Definition bson_leb (v w : value) : bool :=
  match v, w with
  | VNum a, VNum b => a <=? b
  | VStr a, VStr b => String.leb a b
  | VBool a, VBool b => implb a b
  | VDate a, VDate b => a <=? b
  | _, _ => bson_rank v <=? bson_rank w
  end.

(** [1] sorts ascending and [-1] descending. *)
Definition field_order (field : string) (direction : Z) (a b : doc) : Prop :=
  if direction =? 1 then bson_leb (get a field) (get b field) = true
  else bson_leb (get b field) (get a field) = true.

#[global] Instance field_order_dec field direction a b :
  Decision (field_order field direction a b).
Proof. unfold field_order. destruct (direction =? 1); apply _. Defined.

(** [col.find(flt).sort(field, direction).limit(n)] for a positive [n]. *)
Definition find_sort_limit (flt : query) (field : string) (direction : Z)
    (n : nat) (col : list doc) : list doc :=
  take n (merge_sort (field_order field direction) (select flt col)).

Section Readers.

(** Python's [str], which [_to_dict] applies to the [_id] of a document. *)
Variable py_str : value → string.

(** [_to_dict(doc)]: [None] and the empty dict are returned as they are;
    otherwise [_id] is popped from a copy and its string stored under [id]. *)
Definition _to_dict (document : option doc) : option doc :=
  if negb (truthy_rec document) then document else
  let d := default ∅ document in
  Some (match d !! "_id" with
        | Some v => <["id" := VStr (py_str v)]> (delete "_id" d)
        | None => d
        end).

(** [GET /users]. *)
Definition list_users (role : option string) : M (list (option doc)) :=
  col ← _collection "user";
  let flt := if truthy_str role
             then [("role", VStr (default EmptyString role))] else [] in
  let docs := find_limit flt 100 col in
  mret ((λ d, _to_dict (Some d)) <$> docs).

(** [PUT /users/{email}]; [oid] is the [_id] the store generates if it has
    to insert the account. *)
Definition update_user (oid : value) (email : string) (body : UserBody.t)
  : M (option doc) :=
  _ ← _collection "user";
  _ ← update_one_set "user" [("email", VStr email)]
        (UserBody.model_dump_exclude_unset body) oid;
  col ← _collection "user";
  mret (_to_dict (find_one [("email", VStr email)] col)).

(** [GET /courses]. *)
Definition list_courses (teacher_email : option string)
  : M (list (option doc)) :=
  col ← _collection "course";
  let flt := if truthy_str teacher_email
             then [("teacher_email", VStr (default EmptyString teacher_email))]
             else [] in
  mret ((λ d, _to_dict (Some d)) <$> find_limit flt 200 col).

(** [GET /progress/by-user]. *)
Definition progress_by_user (user_email : string) (course_id : option string)
  : M (list (option doc)) :=
  col ← _collection "progress";
  let flt := [("user_email", VStr user_email)]
             ++ (if truthy_str course_id
                 then [("course_id", VStr (default EmptyString course_id))]
                 else []) in
  mret ((λ d, _to_dict (Some d)) <$> find_limit flt 500 col).

(** [GET /lessons]. *)
Definition list_lessons (course_id : string) : M (list (option doc)) :=
  col ← _collection "lesson";
  mret ((λ d, _to_dict (Some d))
          <$> find_sort_limit [("course_id", VStr course_id)] "order" 1 500 col).

(** [GET /discussion]. *)
Definition list_messages (course_id : string) : M (list (option doc)) :=
  col ← _collection "discussion";
  mret ((λ d, _to_dict (Some d))
          <$> find_sort_limit [("course_id", VStr course_id)] "created_at" (-1)
                200 col).

End Readers.

(** ** Stores of the worked examples *)

(** Two records for one identity and code, the one that expires later stored
    first. *)
Definition store_live_then_expired : database :=
  {[ "otp" := [otp_record "a@x.com" "000042" 100;
               otp_record "a@x.com" "000042" 50] ]}.

(** An expired record, then one without [expires_at], for one identity and
    code. *)
Definition store_expired_then_open : database :=
  {[ "otp" := [otp_record "a@x.com" "000042" 0;
               {[ "email" := VStr "a@x.com"; "code" := VStr "000042" ]}] ]}.

(** A single record whose [expires_at] is null. *)
Definition null_expiry_record : doc :=
  {[ "email" := VStr "a@x.com"; "code" := VStr "000042";
     "expires_at" := VNull ]}.
Definition store_null_expiry : database := {[ "otp" := [null_expiry_record] ]}.

(** The same draw twice: two codes issued to one identity a minute apart. *)
Definition issue_twice_same_draw : list call :=
  [RequestOTP 42 0 {| RequestOTPBody.email := "a@x.com" |};
   RequestOTP 42 60000000 {| RequestOTPBody.email := "a@x.com" |}].

(** The two progress calls of the specification's scenario. *)
Definition progress_completed : Progress.t :=
  {| Progress.user_email := "a@x.com"; Progress.course_id := "c1";
     Progress.lesson_id := Some (Some "l1"); Progress.completed := Some true;
     Progress.score := None |}.
Definition progress_score_80 : Progress.t :=
  {| Progress.user_email := "a@x.com"; Progress.course_id := "c1";
     Progress.lesson_id := Some (Some "l1"); Progress.completed := None;
     Progress.score := Some (Some 80) |}.

(** The progress records of the leaderboard scenario. *)
Definition scored (u : string) (n : Z) : doc :=
  {[ "user_email" := VStr u; "score" := VNum n ]}.
Definition store_scores : database :=
  {[ "progress" := [scored "a" 10; scored "b" 30; scored "a" 5] ]}.


(** Two accounts, and a body that names the second while the path names
    the first. *)
Definition store_two_accounts : database :=
  {[ "user" := [default_account "a@x.com"; default_account "b@x.com"] ]}.
Definition body_named (e : string) : UserBody.t :=
  {| UserBody.name := Some (Some "Al"); UserBody.email := e;
     UserBody.role := None; UserBody.avatar_url := None;
     UserBody.locale := None; UserBody.points := None |}.

(** * Properties *)

(** ** The generated code *)

Section Formatting.

Lemma digit_char_is_digit d : 0 ≤ d < 10 → is_digit (digit_char d) = true.
Proof.
  intros Hd. unfold is_digit, digit_char.
  rewrite nat_ascii_embedding by lia.
  apply andb_true_intro; split; apply Nat.leb_le; lia.
Qed.

Lemma digit_char_value d :
  0 ≤ d < 10 → Z.of_nat (nat_of_ascii (digit_char d)) - 48 = d.
Proof.
  intros Hd. unfold digit_char. rewrite nat_ascii_embedding by lia. lia.
Qed.

Lemma decimal_fuel_length fuel : ∀ (k : nat) n acc,
  (1 ≤ k)%nat → 0 ≤ n < 10 ^ Z.of_nat k →
  (String.length acc < String.length (decimal_fuel (S fuel) n acc)
     ≤ k + String.length acc)%nat.
Proof.
  induction fuel as [|fuel IH]; intros k n acc Hk Hn; cbn [decimal_fuel].
  - destruct (n / 10 =? 0); cbn [String.length]; lia.
  - destruct (n / 10 =? 0) eqn:Hq; [cbn [String.length]; lia|].
    apply Z.eqb_neq in Hq.
    assert (10 ≤ n) by (destruct (Z_lt_ge_dec n 10); [rewrite Z.div_small in Hq|]; lia).
    destruct k as [|[|k]]; [lia| change (10 ^ Z.of_nat 1) with 10 in Hn; lia |].
    assert (Hdiv : 0 ≤ n / 10 < 10 ^ Z.of_nat (S k)).
    { split; [apply Z.div_pos; lia|].
      apply Z.div_lt_upper_bound; [lia|].
      replace (Z.of_nat (S (S k))) with (Z.succ (Z.of_nat (S k))) in Hn by lia.
      rewrite Z.pow_succ_r in Hn by lia. lia. }
    specialize (IH (S k) (n / 10) (String (digit_char (n mod 10)) acc)
                  ltac:(lia) Hdiv).
    cbn [decimal_fuel String.length] in IH. lia.
Qed.

Lemma decimal_fuel_digits fuel : ∀ n acc,
  0 ≤ n → all_digits acc = true → all_digits (decimal_fuel fuel n acc) = true.
Proof.
  induction fuel as [|fuel IH]; intros n acc Hn Hacc; cbn [decimal_fuel];
    [done|].
  assert (all_digits (String (digit_char (n mod 10)) acc) = true) as Hacc'.
  { cbn [all_digits]. rewrite digit_char_is_digit, Hacc; [done|].
    apply Z.mod_pos_bound; lia. }
  destruct (n / 10 =? 0); [done|].
  apply IH; [apply Z.div_pos; lia | done].
Qed.

Lemma decimal_fuel_value fuel : ∀ n acc,
  0 ≤ n < 2 ^ Z.of_nat fuel →
  digits_value 0 (decimal_fuel fuel n acc) = digits_value n acc.
Proof.
  induction fuel as [|fuel IH]; intros n acc Hn; cbn [decimal_fuel].
  - change (2 ^ Z.of_nat 0) with 1 in Hn. by replace n with 0 by lia.
  - assert (Hmod : 0 ≤ n mod 10 < 10) by (apply Z.mod_pos_bound; lia).
    pose proof (Z.div_mod n 10 ltac:(lia)) as Hdm.
    destruct (n / 10 =? 0) eqn:Hq.
    + apply Z.eqb_eq in Hq. cbn [digits_value].
      rewrite digit_char_value by done. f_equal. lia.
    + rewrite IH.
      * cbn [digits_value]. rewrite digit_char_value by done. f_equal. lia.
      * split; [apply Z.div_pos; lia|].
        apply Z.div_lt_upper_bound; [lia|].
        replace (Z.of_nat (S fuel)) with (Z.succ (Z.of_nat fuel)) in Hn by lia.
        rewrite Z.pow_succ_r in Hn by lia. lia.
Qed.

Lemma log2_fuel n : 0 ≤ n → n < 2 ^ Z.of_nat (S (Z.to_nat (Z.log2 n))).
Proof.
  intros Hn. pose proof (Z.log2_nonneg n).
  replace (Z.of_nat (S (Z.to_nat (Z.log2 n)))) with (Z.succ (Z.log2 n)) by lia.
  destruct (decide (n = 0)) as [->|]; [done|].
  apply Z.log2_spec. lia.
Qed.

Lemma append_cons a s t : String a s +:+ t = String a (s +:+ t).
Proof. reflexivity. Qed.

Lemma length_zeros k : String.length (zeros k) = k.
Proof. induction k; [done|]. cbn [zeros String.length]. by rewrite IHk. Qed.

Lemma length_append s t :
  String.length (s +:+ t) = (String.length s + String.length t)%nat.
Proof.
  induction s as [|a s IH]; [done|].
  rewrite append_cons. cbn [String.length Nat.add]. by rewrite IH.
Qed.

Lemma all_digits_append s t :
  all_digits (s +:+ t) = all_digits s && all_digits t.
Proof.
  induction s as [|c s IH]; [done|].
  rewrite append_cons. cbn [all_digits]. by rewrite IH, andb_assoc.
Qed.

Lemma all_digits_zeros k : all_digits (zeros k) = true.
Proof. induction k; [done|]. cbn [zeros all_digits]. by rewrite IHk. Qed.

Lemma digits_value_zeros k s : digits_value 0 (zeros k +:+ s) = digits_value 0 s.
Proof.
  induction k; [done|]. cbn [zeros]. rewrite append_cons.
  cbn [digits_value]. done.
Qed.

(** A number below [10^width] is printed on exactly [width] digits, and
    they denote it. *)
Lemma format_0d_nonneg (width : nat) n :
  (1 ≤ width)%nat → 0 ≤ n < 10 ^ Z.of_nat width →
  String.length (format_0d width n) = width
  ∧ all_digits (format_0d width n) = true
  ∧ digits_value 0 (format_0d width n) = n.
Proof.
  intros Hw Hn. unfold format_0d.
  destruct (n <? 0) eqn:Hneg; [apply Z.ltb_lt in Hneg; lia|].
  unfold zfill, decimal.
  pose proof (decimal_fuel_length (Z.to_nat (Z.log2 n)) width n EmptyString Hw Hn) as Hlen.
  cbn [String.length] in Hlen.
  repeat split.
  - rewrite length_append, length_zeros. lia.
  - rewrite all_digits_append, all_digits_zeros. cbn [andb].
    apply decimal_fuel_digits; [lia | done].
  - rewrite digits_value_zeros, decimal_fuel_value; [done|].
    split; [lia | apply log2_fuel; lia].
Qed.

Lemma randbelow_range n entropy : 0 < n → 0 ≤ randbelow n entropy < n.
Proof. intros Hn. apply Z.mod_pos_bound. done. Qed.

Lemma issued_code_shape entropy :
  String.length (issued_code entropy) = 6%nat
  ∧ all_digits (issued_code entropy) = true
  ∧ digits_value 0 (issued_code entropy) = randbelow 1000000 entropy.
Proof.
  apply format_0d_nonneg; [lia|].
  pose proof (randbelow_range 1000000 entropy ltac:(lia)).
  change (10 ^ Z.of_nat 6) with 1000000. lia.
Qed.

End Formatting.

(** ** Queries and lookups *)

Section Queries.

Lemma find_one_None flt col :
  find_one flt col = None ↔ ∀ r, r ∈ col → matches flt r = false.
Proof.
  induction col as [|d col IH]; simpl.
  - split; [intros _ r Hr; by apply elem_of_nil in Hr | done].
  - destruct (matches flt d) eqn:Hd.
    + split; [done|]. intros H. specialize (H d ltac:(left)). congruence.
    + rewrite IH. split.
      * intros H r Hr. apply elem_of_cons in Hr as [->|Hr]; auto.
      * intros H r Hr. apply H. by right.
Qed.

Lemma find_one_Some flt col r :
  find_one flt col = Some r → r ∈ col ∧ matches flt r = true.
Proof.
  induction col as [|d col IH]; simpl; [done|].
  destruct (matches flt d) eqn:Hd.
  - intros [= <-]. split; [left | done].
  - intros H. destruct (IH H). split; [by right | done].
Qed.

(** The first selected record is the head of the selection. *)
Lemma find_one_select flt col : find_one flt col = head (select flt col).
Proof.
  unfold select. induction col as [|d col IH]; [done|].
  cbn [find_one]. destruct (matches flt d) eqn:Hd.
  - rewrite filter_cons_True; [done | by rewrite Hd].
  - rewrite filter_cons_False; [done | rewrite Hd; intros []].
Qed.

Lemma find_one_app flt col col' :
  find_one flt (col ++ col') =
  match find_one flt col with
  | Some r => Some r
  | None => find_one flt col'
  end.
Proof.
  induction col as [|d col IH]; simpl; [done|].
  by destruct (matches flt d).
Qed.

Lemma matches_cond_str r k s :
  matches_cond r (k, VStr s) = true ↔ r !! k = Some (VStr s).
Proof.
  unfold matches_cond; cbn [fst snd]. destruct (r !! k) as [w|].
  - split.
    + intros H%bool_decide_eq_true_1. congruence.
    + intros [= ->]. by apply bool_decide_eq_true_2.
  - split; [intros H%bool_decide_eq_true_1; done | done].
Qed.

Lemma matches_otp_query r e c :
  matches (otp_query e c) r = true
  ↔ r !! "email" = Some (VStr e) ∧ r !! "code" = Some (VStr c).
Proof.
  unfold matches, otp_query; simpl.
  rewrite andb_true_r, andb_true_iff, !matches_cond_str. done.
Qed.

Lemma matches_email_query r e :
  matches (email_query e) r = true ↔ r !! "email" = Some (VStr e).
Proof.
  unfold matches, email_query; simpl.
  rewrite andb_true_r, matches_cond_str. done.
Qed.

(** A record a lookup by identity returns is a true value for Python. *)
Lemma truthy_rec_find_otp e c col :
  truthy_rec (find_one (otp_query e c) col)
  = bool_decide (is_Some (find_one (otp_query e c) col)).
Proof.
  destruct (find_one (otp_query e c) col) as [r|] eqn:Hr; simpl; [|done].
  apply find_one_Some in Hr as [_ Hm]. apply matches_otp_query in Hm as [He _].
  rewrite bool_decide_eq_false_2; [done|]. intros ->. by rewrite lookup_empty in He.
Qed.

Lemma truthy_rec_find_email e col :
  truthy_rec (find_one (email_query e) col)
  = bool_decide (is_Some (find_one (email_query e) col)).
Proof.
  destruct (find_one (email_query e) col) as [r|] eqn:Hr; simpl; [|done].
  apply find_one_Some in Hr as [_ Hm]. apply matches_email_query in Hm.
  rewrite bool_decide_eq_false_2; [done|]. intros ->. by rewrite lookup_empty in Hm.
Qed.

Lemma coll_insert_eq (d : database) name c : coll (<[name := c]> d) name = c.
Proof. unfold coll. by rewrite lookup_insert_eq. Qed.

Lemma coll_insert_ne (d : database) name name' c :
  name ≠ name' → coll (<[name := c]> d) name' = coll d name'.
Proof. intros Hne. unfold coll. by rewrite lookup_insert_ne. Qed.

End Queries.

(** ** Verification, step by step *)

Ltac run_handler :=
  unfold mbind, M_bind, mret, M_ret, raise, _collection, create_document; simpl.

Section Verification.

(** What [verify_otp] does on a configured store, by the record its lookup
    returns. *)
Lemma verify_otp_unfold d now tok created e c :
  verify_otp now tok created
    {| VerifyOTPBody.email := e; VerifyOTPBody.code := c |} (Some d)
  = match find_one (otp_query e c) (coll d "otp") with
    | None => (Raise InvalidCode, Some d)
    | Some r =>
        if truthy (get r "expires_at") then
          match get r "expires_at" with
          | VDate t =>
              if t <? now then (Raise CodeExpired, Some d)
              else (Ok {[ "token" := VStr tok ]}, Some (verified d e tok created))
          | _ => (Raise TypeError, Some d)
          end
        else (Ok {[ "token" := VStr tok ]}, Some (verified d e tok created))
    end.
Proof.
  assert (Hok :
    (_ ← create_document "session" (session_record e tok created);
     users ← _collection "user";
     _ ← (if negb (truthy_rec (find_one (email_query e) users))
          then _ ← create_document "user" (default_account e); mret tt
          else mret tt);
     mret ({[ "token" := VStr tok ]} : doc)) (Some d)
    = (Ok {[ "token" := VStr tok ]}, Some (verified d e tok created))).
  { run_handler. rewrite truthy_rec_find_email.
    unfold verified, with_account, with_session.
    destruct (find_one (email_query e) _) as [u|] eqn:Hu; simpl; done. }
  unfold verify_otp. simpl.
  change [("email", VStr e); ("code", VStr c)] with (otp_query e c).
  unfold mbind at 1, M_bind at 1, _collection at 1.
  rewrite truthy_rec_find_otp.
  destruct (find_one (otp_query e c) (coll d "otp")) as [r|] eqn:Hr; simpl; [|done].
  destruct (truthy (get r "expires_at")) eqn:Ht.
  - destruct (get r "expires_at") as [| | | |t] eqn:Hg;
      try (unfold mbind, M_bind, lt_datetime, raise; simpl; done).
    unfold mbind at 1, M_bind at 1, lt_datetime, mret at 1, M_ret at 1.
    destruct (t <? now); [done|]. apply Hok.
  - unfold mbind at 1, M_bind at 1, mret at 1, M_ret at 1. apply Hok.
Qed.

Lemma request_otp_unfold d entropy now e :
  request_otp entropy now {| RequestOTPBody.email := e |} (Some d)
  = (Ok {[ "sent" := VBool true; "email" := VStr e;
           "code" := VStr (issued_code entropy) ]},
     Some (<["otp" := coll d "otp"
               ++ [otp_record e (issued_code entropy)
                     (now + timedelta_minutes 10)]]> d)).
Proof. reflexivity. Qed.

Lemma coll_with_session d e tok created name :
  coll (with_session d e tok created) name
  = if decide (name = "session")
    then coll d "session" ++ [session_record e tok created]
    else coll d name.
Proof.
  unfold with_session. case_decide as Hn.
  - subst. apply coll_insert_eq.
  - by apply coll_insert_ne.
Qed.

Lemma coll_with_account d e name :
  coll (with_account d e) name
  = if decide (name = "user")
    then match find_one (email_query e) (coll d "user") with
         | Some _ => coll d "user"
         | None => coll d "user" ++ [default_account e]
         end
    else coll d name.
Proof.
  unfold with_account.
  destruct (find_one (email_query e) (coll d "user")) eqn:Hu; case_decide as Hn;
    subst; rewrite ?Hu; try done.
  - apply coll_insert_eq.
  - by apply coll_insert_ne.
Qed.

Lemma coll_verified_otp d e tok created :
  coll (verified d e tok created) "otp" = coll d "otp".
Proof.
  unfold verified. rewrite coll_with_account, decide_False by done.
  by rewrite coll_with_session, decide_False.
Qed.

Lemma coll_verified_session d e tok created :
  coll (verified d e tok created) "session"
  = coll d "session" ++ [session_record e tok created].
Proof.
  unfold verified. rewrite coll_with_account, decide_False by done.
  by rewrite coll_with_session, decide_True.
Qed.

Lemma coll_verified_user d e tok created :
  coll (verified d e tok created) "user"
  = match find_one (email_query e) (coll d "user") with
    | Some _ => coll d "user"
    | None => coll d "user" ++ [default_account e]
    end.
Proof.
  unfold verified. rewrite coll_with_account, decide_True by done.
  by rewrite coll_with_session, decide_False.
Qed.

Lemma coll_verified_progress d e tok created :
  coll (verified d e tok created) "progress" = coll d "progress".
Proof.
  unfold verified. rewrite coll_with_account, decide_False by done.
  by rewrite coll_with_session, decide_False.
Qed.

(** The two ways [verify_otp] lets a record pass its expiry test. *)
Lemma verify_otp_unexpired d now tok created e c r t :
  find_one (otp_query e c) (coll d "otp") = Some r →
  r !! "expires_at" = Some (VDate t) → now ≤ t →
  verify_otp now tok created
    {| VerifyOTPBody.email := e; VerifyOTPBody.code := c |} (Some d)
  = (Ok {[ "token" := VStr tok ]}, Some (verified d e tok created)).
Proof.
  intros Hr Ht Hnow. rewrite verify_otp_unfold, Hr.
  unfold get. rewrite Ht. simpl.
  destruct (t <? now) eqn:Hlt; [apply Z.ltb_lt in Hlt; lia | done].
Qed.

Lemma verify_otp_no_expiry d now tok created e c r :
  find_one (otp_query e c) (coll d "otp") = Some r →
  truthy (get r "expires_at") = false →
  verify_otp now tok created
    {| VerifyOTPBody.email := e; VerifyOTPBody.code := c |} (Some d)
  = (Ok {[ "token" := VStr tok ]}, Some (verified d e tok created)).
Proof. intros Hr Ht. by rewrite verify_otp_unfold, Hr, Ht. Qed.

Lemma verify_otp_expired d now tok created e c r t :
  find_one (otp_query e c) (coll d "otp") = Some r →
  r !! "expires_at" = Some (VDate t) → t < now →
  verify_otp now tok created
    {| VerifyOTPBody.email := e; VerifyOTPBody.code := c |} (Some d)
  = (Raise CodeExpired, Some d).
Proof.
  intros Hr Ht Hnow. rewrite verify_otp_unfold, Hr.
  unfold get. rewrite Ht. simpl.
  destruct (t <? now) eqn:Hlt; [done | apply Z.ltb_ge in Hlt; lia].
Qed.

(** Whatever [verify_otp] raises, it raises before it writes. *)
Lemma verify_otp_raise_frame w now tok created body err :
  (verify_otp now tok created body w).1 = Raise err →
  (verify_otp now tok created body w).2 = w.
Proof.
  destruct body as [e c]. destruct w as [d|]; [|done].
  rewrite verify_otp_unfold.
  destruct (find_one (otp_query e c) (coll d "otp")) as [r|]; [|done].
  destruct (truthy (get r "expires_at")); [|done].
  destruct (get r "expires_at") as [| | | |t]; try done.
  by destruct (t <? now).
Qed.

End Verification.

(** ** Issuing a code *)

(** C6. [request_otp] answers with a code of exactly six decimal digits,
    appends to the [otp] collection one record that binds this code to the
    identity and expires ten minutes after the clock reading, keeps every
    record stored before (of this and of every other collection), and returns
    the same code to the caller. *)
Theorem request_otp_issues d entropy now e :
  ∃ code d',
    request_otp entropy now {| RequestOTPBody.email := e |} (Some d)
    = (Ok {[ "sent" := VBool true; "email" := VStr e; "code" := VStr code ]},
       Some d')
    ∧ String.length code = 6%nat
    ∧ all_digits code = true
    ∧ coll d' "otp"
      = coll d "otp"
          ++ [ {[ "email" := VStr e; "code" := VStr code;
                  "expires_at" := VDate (now + 10 * 60 * 1000000) ]} ]
    ∧ ∀ name, name ≠ "otp" → coll d' name = coll d name.
Proof.
  eexists (issued_code entropy), _. rewrite request_otp_unfold.
  destruct (issued_code_shape entropy) as (Hlen & Hdig & _).
  split; [reflexivity|]. repeat split; try done.
  - by rewrite coll_insert_eq.
  - intros name Hne. by rewrite coll_insert_ne.
Qed.

(** ** Verification: the failures *)

(** C3. [verify_otp] fails with "Invalid code" exactly when no stored record
    carries both the identity and the presented code, compared as they are;
    the store is then left as it was, so no session is created. *)
Theorem verify_otp_invalid_code_iff d now tok created e c :
  ((verify_otp now tok created
      {| VerifyOTPBody.email := e; VerifyOTPBody.code := c |} (Some d)).1
   = Raise InvalidCode
   ↔ ∀ r, r ∈ coll d "otp" →
          ¬ (r !! "email" = Some (VStr e) ∧ r !! "code" = Some (VStr c)))
  ∧ ((verify_otp now tok created
        {| VerifyOTPBody.email := e; VerifyOTPBody.code := c |} (Some d)).1
     = Raise InvalidCode →
     (verify_otp now tok created
        {| VerifyOTPBody.email := e; VerifyOTPBody.code := c |} (Some d)).2
     = Some d).
Proof.
  split; [|apply verify_otp_raise_frame].
  rewrite verify_otp_unfold.
  destruct (find_one (otp_query e c) (coll d "otp")) as [r|] eqn:Hr.
  - apply find_one_Some in Hr as [Hin Hm]. apply matches_otp_query in Hm.
    split; [|intros H; by destruct (H r Hin)].
    destruct (truthy (get r "expires_at")); [|done].
    destruct (get r "expires_at") as [| | | |t]; try done.
    by destruct (t <? now).
  - split; [|done]. intros _ r Hin Hm. apply matches_otp_query in Hm.
    rewrite find_one_None in Hr. specialize (Hr r Hin). congruence.
Qed.

(** The comparison is plain equality of strings: a code with a stray space
    does not match the stored one. *)
Example verify_otp_no_trimming :
  (verify_otp 0 "tok" 0
     {| VerifyOTPBody.email := "a@x.com"; VerifyOTPBody.code := "000042 " |}
     (Some {[ "otp" := [otp_record "a@x.com" "000042" 600000000] ]})).1
  = Raise InvalidCode.
Proof. vm_compute. reflexivity. Qed.

(** C5. A verification that fails, with "Invalid code", with "Code expired"
    or in any other way, leaves the store exactly as it found it: no session
    and no account is written. *)
Theorem verify_otp_failure_leaves_store w now tok created body err :
  (verify_otp now tok created body w).1 = Raise err →
  (verify_otp now tok created body w).2 = w.
Proof. apply verify_otp_raise_frame. Qed.

Lemma verify_otp_failure_leaves_store_witness :
  (verify_otp 601000000 "tok" 601000000
     {| VerifyOTPBody.email := "a@x.com"; VerifyOTPBody.code := "000042" |}
     (Some {[ "otp" := [otp_record "a@x.com" "000042" 600000000] ]})).1
  = Raise CodeExpired
  ∧ (verify_otp 601000000 "tok" 601000000
       {| VerifyOTPBody.email := "a@x.com"; VerifyOTPBody.code := "000042" |}
       (Some {[ "otp" := [otp_record "a@x.com" "000042" 600000000] ]})).2
    = Some {[ "otp" := [otp_record "a@x.com" "000042" 600000000] ]}.
Proof.
  split; [vm_compute; reflexivity|].
  apply (verify_otp_failure_leaves_store _ _ _ _ _ CodeExpired).
  vm_compute. reflexivity.
Defined.

(** ** Verification: which record decides *)

Section FirstMatch.

Lemma matches_otp_record e c e' c' t :
  matches (otp_query e c) (otp_record e' c' t) = true ↔ e' = e ∧ c' = c.
Proof.
  rewrite matches_otp_query.
  change (otp_record e' c' t !! "email") with (Some (VStr e')).
  change (otp_record e' c' t !! "code") with (Some (VStr c')).
  split; [intros [[= ->] [= ->]]; done | intros [-> ->]; done].
Qed.

(** A record appended to a collection is found when the filter selects it
    and selects nothing stored before. *)
Lemma find_one_snoc flt col r :
  find_one flt col = None → matches flt r = true →
  find_one flt (col ++ [r]) = Some r.
Proof.
  intros Hcol Hr. rewrite find_one_app, Hcol. cbn [find_one]. by rewrite Hr.
Qed.

Lemma run_issue_twice d e ent1 t1 ent2 t2 :
  ∃ d2,
    run [RequestOTP ent1 t1 {| RequestOTPBody.email := e |};
         RequestOTP ent2 t2 {| RequestOTPBody.email := e |}] (Some d) = Some d2
    ∧ coll d2 "otp"
      = coll d "otp"
          ++ [otp_record e (issued_code ent1) (t1 + timedelta_minutes 10);
              otp_record e (issued_code ent2) (t2 + timedelta_minutes 10)]
    ∧ coll d2 "session" = coll d "session".
Proof.
  eexists. cbn [run foldl exec]. rewrite !request_otp_unfold. cbn [snd].
  rewrite request_otp_unfold. cbn [snd]. split; [reflexivity|].
  rewrite !coll_insert_eq. split; [by rewrite <- app_assoc|].
  by rewrite !coll_insert_ne.
Qed.

Lemma truthy_falsy_cases (r : doc) k :
  truthy (get r k) = false
  ↔ r !! k = None ∨ r !! k = Some VNull ∨ r !! k = Some (VBool false)
    ∨ r !! k = Some (VNum 0) ∨ r !! k = Some (VStr EmptyString).
Proof.
  unfold get. destruct (r !! k) as [v|]; cbn [default];
    [|split; [intros _; by left | done]].
  split.
  - intros Hv. destruct v as [|[]|n|[|a s]|t]; try discriminate Hv; auto 6.
    cbn [truthy] in Hv. apply negb_false_iff, Z.eqb_eq in Hv as ->. auto 6.
  - intros [H|[H|[H|[H|H]]]]; try discriminate H; by injection H as ->.
Qed.

End FirstMatch.

(** ** Verification: expiry *)

(** C2, as stated, fails: a stored record that matches identity and code has
    expired (50 < 70), yet verification succeeds, because an earlier stored
    record with the same identity and code is still valid and is the one the
    lookup returns. *)
Lemma verify_otp_expired_record_counterexample :
  (∃ r, r ∈ coll store_live_then_expired "otp"
        ∧ r !! "email" = Some (VStr "a@x.com")
        ∧ r !! "code" = Some (VStr "000042")
        ∧ r !! "expires_at" = Some (VDate 50) ∧ 50 < 70)
  ∧ (verify_otp 70 "tok" 70
       {| VerifyOTPBody.email := "a@x.com"; VerifyOTPBody.code := "000042" |}
       (Some store_live_then_expired)).1
    = Ok {[ "token" := VStr "tok" ]}.
Proof.
  split; [|vm_compute; reflexivity].
  exists (otp_record "a@x.com" "000042" 50).
  split; [right; left|]. repeat split; reflexivity.
Qed.

(** C2, amended. When the first stored record that matches identity and code
    has an [expires_at] strictly before the current time, [verify_otp] fails
    with "Code expired" and leaves the store as it was. In particular, for a
    code issued at [t0] to an identity that had no record with this code, a
    verification 9m59s later succeeds and leaves an account for the identity,
    and a verification 10m01s after issuance fails with "Code expired". *)
Theorem verify_otp_code_expired :
  (∀ d now tok created e c r t,
     find_one (otp_query e c) (coll d "otp") = Some r →
     r !! "expires_at" = Some (VDate t) → t < now →
     verify_otp now tok created
       {| VerifyOTPBody.email := e; VerifyOTPBody.code := c |} (Some d)
     = (Raise CodeExpired, Some d))
  ∧ (∀ d e entropy t0 tok created tok' created',
       find_one (otp_query e (issued_code entropy)) (coll d "otp") = None →
       ∃ d1 d2,
         (request_otp entropy t0 {| RequestOTPBody.email := e |} (Some d)).2
         = Some d1
         ∧ verify_otp (t0 + 599 * 1000000) tok created
             {| VerifyOTPBody.email := e;
                VerifyOTPBody.code := issued_code entropy |} (Some d1)
           = (Ok {[ "token" := VStr tok ]}, Some d2)
         ∧ is_Some (find_one (email_query e) (coll d2 "user"))
         ∧ verify_otp (t0 + 601 * 1000000) tok' created'
             {| VerifyOTPBody.email := e;
                VerifyOTPBody.code := issued_code entropy |} (Some d2)
           = (Raise CodeExpired, Some d2)).
Proof.
  split; [intros; by eapply verify_otp_expired|].
  intros d e entropy t0 tok created tok' created' Hfresh.
  set (c := issued_code entropy).
  set (r := otp_record e c (t0 + timedelta_minutes 10)).
  set (d1 := <["otp" := coll d "otp" ++ [r]]> d).
  assert (Hfind : find_one (otp_query e c) (coll d1 "otp") = Some r).
  { unfold d1. rewrite coll_insert_eq.
    apply find_one_snoc; [done | by apply matches_otp_record]. }
  exists d1, (verified d1 e tok created).
  split; [by rewrite request_otp_unfold|].
  split.
  { apply (verify_otp_unexpired _ _ _ _ _ _ r (t0 + timedelta_minutes 10));
      [done | done | unfold timedelta_minutes; lia]. }
  split.
  { rewrite coll_verified_user.
    destruct (find_one (email_query e) (coll d1 "user")) as [u|] eqn:Hu;
      [by rewrite Hu|].
    rewrite (find_one_snoc _ _ (default_account e)); [done | done |].
    by apply matches_email_query. }
  apply (verify_otp_expired _ _ _ _ _ _ r (t0 + timedelta_minutes 10)).
  - by rewrite coll_verified_otp.
  - done.
  - unfold timedelta_minutes. lia.
Qed.

(** The scenario of the specification: [a@x.com], issued at [t = 0] on an
    empty store. *)
Lemma verify_otp_code_expired_witness :
  find_one (otp_query "a@x.com" (issued_code 42)) (coll ∅ "otp") = None
  ∧ ∃ d1 d2,
      (request_otp 42 0 {| RequestOTPBody.email := "a@x.com" |} (Some ∅)).2
      = Some d1
      ∧ verify_otp (0 + 599 * 1000000) "tok" 599000000
          {| VerifyOTPBody.email := "a@x.com";
             VerifyOTPBody.code := issued_code 42 |} (Some d1)
        = (Ok {[ "token" := VStr "tok" ]}, Some d2)
      ∧ is_Some (find_one (email_query "a@x.com") (coll d2 "user"))
      ∧ verify_otp (0 + 601 * 1000000) "tok2" 601000000
          {| VerifyOTPBody.email := "a@x.com";
             VerifyOTPBody.code := issued_code 42 |} (Some d2)
        = (Raise CodeExpired, Some d2).
Proof.
  split; [reflexivity|].
  destruct verify_otp_code_expired as [_ H].
  apply (H ∅ "a@x.com" 42 0 "tok" 599000000 "tok2" 601000000).
  reflexivity.
Defined.

(** C10, as stated, fails: the second stored record has no [expires_at] and
    matches identity and code, yet verification fails with "Code expired",
    because the lookup returns the expired record stored before it. *)
Lemma verify_otp_open_record_counterexample :
  (∃ r, r ∈ coll store_expired_then_open "otp"
        ∧ r !! "email" = Some (VStr "a@x.com")
        ∧ r !! "code" = Some (VStr "000042")
        ∧ r !! "expires_at" = None)
  ∧ (verify_otp 1 "tok" 1
       {| VerifyOTPBody.email := "a@x.com"; VerifyOTPBody.code := "000042" |}
       (Some store_expired_then_open)).1
    = Raise CodeExpired.
Proof.
  split; [|vm_compute; reflexivity].
  exists {[ "email" := VStr "a@x.com"; "code" := VStr "000042" ]}.
  split; [right; left|]. repeat split; reflexivity.
Qed.

(** C10, amended. When the first stored record that matches identity and
    code has an [expires_at] that is absent, null or otherwise false for
    Python, [verify_otp] makes no expiry test: at any current time it
    succeeds, returns the token drawn for the call and stores its session. *)
Theorem verify_otp_without_expiry d now tok created e c r :
  find_one (otp_query e c) (coll d "otp") = Some r →
  r !! "expires_at" = None ∨ r !! "expires_at" = Some VNull
  ∨ r !! "expires_at" = Some (VBool false) ∨ r !! "expires_at" = Some (VNum 0)
  ∨ r !! "expires_at" = Some (VStr EmptyString) →
  ∃ d',
    verify_otp now tok created
      {| VerifyOTPBody.email := e; VerifyOTPBody.code := c |} (Some d)
    = (Ok {[ "token" := VStr tok ]}, Some d')
    ∧ coll d' "session" = coll d "session" ++ [session_record e tok created]
    ∧ coll d' "otp" = coll d "otp".
Proof.
  intros Hr Hfalsy. apply truthy_falsy_cases in Hfalsy.
  exists (verified d e tok created).
  split; [by eapply verify_otp_no_expiry|].
  by rewrite coll_verified_session, coll_verified_otp.
Qed.

Lemma verify_otp_without_expiry_witness :
  find_one (otp_query "a@x.com" "000042") (coll store_null_expiry "otp")
  = Some null_expiry_record
  ∧ null_expiry_record !! "expires_at" = Some VNull
  ∧ ∃ d',
      verify_otp 99999999999 "tok" 7
        {| VerifyOTPBody.email := "a@x.com"; VerifyOTPBody.code := "000042" |}
        (Some store_null_expiry)
      = (Ok {[ "token" := VStr "tok" ]}, Some d')
      ∧ coll d' "session"
        = coll store_null_expiry "session"
            ++ [session_record "a@x.com" "tok" 7]
      ∧ coll d' "otp" = coll store_null_expiry "otp".
Proof.
  split; [reflexivity|]. split; [reflexivity|].
  apply (verify_otp_without_expiry store_null_expiry 99999999999 "tok" 7
           "a@x.com" "000042" null_expiry_record).
  - reflexivity.
  - right; left. reflexivity.
Defined.

(** ** Verification: a code stays usable *)

(** C1, as stated, fails: two codes are issued to one identity a minute
    apart and the draws coincide. At 10m01s the second code has not expired
    (it is valid until 11m00s), yet verification with it fails with "Code
    expired": the lookup returns the first record, which has. *)
Lemma verify_otp_second_code_counterexample :
  ∃ d2,
    run issue_twice_same_draw (Some ∅) = Some d2
    ∧ coll d2 "otp" = [otp_record "a@x.com" "000042" 600000000;
                       otp_record "a@x.com" "000042" 660000000]
    ∧ 601000000 ≤ 660000000
    ∧ (verify_otp 601000000 "tok" 601000000
         {| VerifyOTPBody.email := "a@x.com"; VerifyOTPBody.code := "000042" |}
         (Some d2)).1
      = Raise CodeExpired.
Proof.
  destruct (run_issue_twice ∅ "a@x.com" 42 0 42 60000000)
    as (d2 & Hrun & Hotp & _).
  exists d2. split; [exact Hrun|]. split; [exact Hotp|]. split; [lia|].
  rewrite (verify_otp_expired d2 601000000 "tok" 601000000 "a@x.com" "000042"
             (otp_record "a@x.com" "000042" 600000000) 600000000).
  - reflexivity.
  - rewrite Hotp. reflexivity.
  - reflexivity.
  - lia.
Qed.

(** C1, amended. A successful verification deletes and changes no stored
    code: as long as the first stored record that matches identity and code
    has not expired, presenting the pair again succeeds again, returns the
    token drawn for that call and stores one more session. Two codes issued
    to one identity are stored as two records after those already stored,
    and verification with either succeeds until it expires, provided no
    record stored earlier carries the same identity and code (for the second
    code this includes the first: the two codes differ). *)
Theorem verify_otp_reusable :
  (∀ d e c r t now1 tok1 created1 now2 tok2 created2,
     find_one (otp_query e c) (coll d "otp") = Some r →
     r !! "expires_at" = Some (VDate t) → now1 ≤ t → now2 ≤ t →
     ∃ d1 d2,
       verify_otp now1 tok1 created1
         {| VerifyOTPBody.email := e; VerifyOTPBody.code := c |} (Some d)
       = (Ok {[ "token" := VStr tok1 ]}, Some d1)
       ∧ coll d1 "otp" = coll d "otp"
       ∧ verify_otp now2 tok2 created2
           {| VerifyOTPBody.email := e; VerifyOTPBody.code := c |} (Some d1)
         = (Ok {[ "token" := VStr tok2 ]}, Some d2)
       ∧ coll d2 "otp" = coll d "otp"
       ∧ coll d2 "session"
         = coll d "session"
             ++ [session_record e tok1 created1; session_record e tok2 created2])
  ∧ (∀ d e ent1 t1 ent2 t2,
       ∃ d2,
         run [RequestOTP ent1 t1 {| RequestOTPBody.email := e |};
              RequestOTP ent2 t2 {| RequestOTPBody.email := e |}] (Some d)
         = Some d2
         ∧ coll d2 "otp"
           = coll d "otp"
               ++ [otp_record e (issued_code ent1) (t1 + 10 * 60 * 1000000);
                   otp_record e (issued_code ent2) (t2 + 10 * 60 * 1000000)]
         ∧ (∀ now tok created,
              find_one (otp_query e (issued_code ent1)) (coll d "otp") = None →
              now ≤ t1 + 10 * 60 * 1000000 →
              ∃ d3,
                verify_otp now tok created
                  {| VerifyOTPBody.email := e;
                     VerifyOTPBody.code := issued_code ent1 |} (Some d2)
                = (Ok {[ "token" := VStr tok ]}, Some d3))
         ∧ (∀ now tok created,
              find_one (otp_query e (issued_code ent2)) (coll d "otp") = None →
              issued_code ent1 ≠ issued_code ent2 →
              now ≤ t2 + 10 * 60 * 1000000 →
              ∃ d3,
                verify_otp now tok created
                  {| VerifyOTPBody.email := e;
                     VerifyOTPBody.code := issued_code ent2 |} (Some d2)
                = (Ok {[ "token" := VStr tok ]}, Some d3))).
Proof.
  split.
  - intros d e c r t now1 tok1 created1 now2 tok2 created2 Hr Ht H1 H2.
    exists (verified d e tok1 created1),
           (verified (verified d e tok1 created1) e tok2 created2).
    split; [by eapply verify_otp_unexpired|].
    split; [apply coll_verified_otp|].
    split.
    { eapply verify_otp_unexpired; [|done..]. by rewrite coll_verified_otp. }
    split; [by rewrite !coll_verified_otp|].
    by rewrite !coll_verified_session, <- app_assoc.
  - intros d e ent1 t1 ent2 t2.
    destruct (run_issue_twice d e ent1 t1 ent2 t2) as (d2 & Hrun & Hotp & _).
    exists d2. split; [done|]. split; [done|].
    split.
    + intros now tok created Hfresh Hnow. eexists.
      eapply (verify_otp_unexpired _ _ _ _ _ _
                (otp_record e (issued_code ent1) (t1 + timedelta_minutes 10))
                (t1 + timedelta_minutes 10));
        [|reflexivity|unfold timedelta_minutes; lia].
      rewrite Hotp, find_one_app, Hfresh. cbn [find_one].
      rewrite (proj2 (matches_otp_record _ _ _ _ _)); done.
    + intros now tok created Hfresh Hne Hnow. eexists.
      eapply (verify_otp_unexpired _ _ _ _ _ _
                (otp_record e (issued_code ent2) (t2 + timedelta_minutes 10))
                (t2 + timedelta_minutes 10));
        [|reflexivity|unfold timedelta_minutes; lia].
      rewrite Hotp, find_one_app, Hfresh. cbn [find_one].
      destruct (matches (otp_query e (issued_code ent2))
                  (otp_record e (issued_code ent1) (t1 + timedelta_minutes 10)))
        eqn:Hm.
      { apply matches_otp_record in Hm as [_ Hm]. done. }
      rewrite (proj2 (matches_otp_record _ _ _ _ _)); done.
Qed.

(** Two different codes issued a minute apart on an empty store: at 10m30s
    the second still verifies, and verifies again. *)
Lemma verify_otp_reusable_witness :
  ∃ d2 d3 d4,
    run [RequestOTP 42 0 {| RequestOTPBody.email := "a@x.com" |};
         RequestOTP 7 60000000 {| RequestOTPBody.email := "a@x.com" |}] (Some ∅)
    = Some d2
    ∧ verify_otp 630000000 "tok1" 630000000
        {| VerifyOTPBody.email := "a@x.com"; VerifyOTPBody.code := issued_code 7 |}
        (Some d2)
      = (Ok {[ "token" := VStr "tok1" ]}, Some d3)
    ∧ verify_otp 640000000 "tok2" 640000000
        {| VerifyOTPBody.email := "a@x.com"; VerifyOTPBody.code := issued_code 7 |}
        (Some d3)
      = (Ok {[ "token" := VStr "tok2" ]}, Some d4)
    ∧ coll d4 "otp" = coll d2 "otp".
Proof.
  destruct verify_otp_reusable as [HA HB].
  destruct (HB ∅ "a@x.com" 42 0 7 60000000) as (d2 & Hrun & Hotp & _ & _).
  exists d2.
  destruct (HA d2 "a@x.com" (issued_code 7)
              (otp_record "a@x.com" (issued_code 7) (60000000 + 10 * 60 * 1000000))
              660000000 630000000 "tok1" 630000000 640000000 "tok2" 640000000)
    as (d3 & d4 & H1 & _ & H2 & H3 & _).
  - rewrite Hotp. reflexivity.
  - reflexivity.
  - lia.
  - lia.
  - exists d3, d4. repeat split; assumption.
Defined.

(** ** Accounts *)

Section Accounts.

Lemma upsert_progress_unfold d now body :
  upsert_progress now body (Some d)
  = (Ok {[ "ok" := VBool true ]},
     Some (<["progress" :=
              update_one_upsert (body_key body)
                (Progress.model_dump_exclude_unset body) now
                (coll d "progress")]> d)).
Proof. destruct body as [u c [[l|]|] cm sc]; reflexivity. Qed.

Lemma leaderboard_frame w limit : (leaderboard limit w).2 = w.
Proof.
  destruct w as [d|]; [|done].
  unfold leaderboard, aggregate, mbind, M_bind, _collection.
  by destruct (stage_limit limit _).
Qed.

Lemma verify_otp_ok d now tok created e c out w :
  verify_otp now tok created
    {| VerifyOTPBody.email := e; VerifyOTPBody.code := c |} (Some d)
  = (Ok out, w) →
  out = {[ "token" := VStr tok ]} ∧ w = Some (verified d e tok created).
Proof.
  rewrite verify_otp_unfold.
  destruct (find_one (otp_query e c) (coll d "otp")) as [r|]; [|done].
  destruct (truthy (get r "expires_at")); [|by intros [= <- <-]].
  destruct (get r "expires_at") as [| | | |t]; try done.
  destruct (t <? now); [done | by intros [= <- <-]].
Qed.

(** What a call can do to the [user] collection: nothing, or append the
    default account of an identity that had none. *)
Lemma exec_user c d :
  ∃ d', exec c (Some d) = Some d'
        ∧ (coll d' "user" = coll d "user"
           ∨ ∃ e, find_one (email_query e) (coll d "user") = None
                  ∧ coll d' "user" = coll d "user" ++ [default_account e]).
Proof.
  destruct c as [entropy now [e]|now tok created [e c]|now body|limit];
    cbn [exec].
  - rewrite request_otp_unfold. eexists; split; [done|]. left.
    by rewrite coll_insert_ne.
  - destruct (verify_otp now tok created _ (Some d)) as [[out|err] w] eqn:Hv.
    + apply verify_otp_ok in Hv as [_ ->]. eexists; split; [done|].
      rewrite coll_verified_user.
      destruct (find_one (email_query e) (coll d "user")) eqn:Hf; eauto.
    + pose proof (verify_otp_raise_frame (Some d) now tok created
                    {| VerifyOTPBody.email := e; VerifyOTPBody.code := c |} err)
        as Hfr.
      rewrite Hv in Hfr. cbn [fst snd] in *. rewrite Hfr by done. eauto.
  - rewrite upsert_progress_unfold. eexists; split; [done|]. left.
    by rewrite coll_insert_ne.
  - rewrite leaderboard_frame. eauto.
Qed.

Lemma select_app flt (l1 l2 : list doc) :
  select flt (l1 ++ l2) = select flt l1 ++ select flt l2.
Proof. apply filter_app. Qed.

Lemma select_singleton flt (r : doc) :
  select flt [r] = if matches flt r then [r] else [].
Proof.
  unfold select. destruct (matches flt r) eqn:Hm.
  - rewrite filter_cons_True; [done | by rewrite Hm].
  - rewrite filter_cons_False; [done | rewrite Hm; intros []].
Qed.

Lemma find_one_None_select flt col :
  find_one flt col = None ↔ select flt col = [].
Proof.
  rewrite find_one_select. destruct (select flt col); split; done.
Qed.

Lemma matches_default_account e e' :
  matches (email_query e') (default_account e) = true ↔ e = e'.
Proof.
  rewrite matches_email_query.
  change (default_account e !! "email") with (Some (VStr e)).
  split; [by intros [= ->] | by intros ->].
Qed.

Lemma accounts_unique_snoc (users : list doc) e :
  (∀ e', (length (select (email_query e') users) ≤ 1)%nat) →
  find_one (email_query e) users = None →
  ∀ e', (length (select (email_query e') (users ++ [default_account e])) ≤ 1)%nat.
Proof.
  intros Huniq Hnone e'. rewrite select_app, select_singleton, length_app.
  destruct (matches (email_query e') (default_account e)) eqn:Hm.
  - apply matches_default_account in Hm as ->.
    apply find_one_None_select in Hnone. rewrite Hnone. cbn. lia.
  - specialize (Huniq e'). cbn. lia.
Qed.

Lemma exec_accounts_unique c d :
  accounts_unique d →
  ∃ d', exec c (Some d) = Some d' ∧ accounts_unique d'.
Proof.
  intros Huniq. destruct (exec_user c d) as (d' & Hex & [Hsame|(e & Hn & Happ)]);
    exists d'; (split; [done|]); unfold accounts_unique.
  - by rewrite Hsame.
  - rewrite Happ. by apply accounts_unique_snoc.
Qed.

Lemma run_accounts_unique cs : ∀ d,
  accounts_unique d →
  ∃ d', run cs (Some d) = Some d' ∧ accounts_unique d'.
Proof.
  induction cs as [|c cs IH]; intros d Huniq; [by exists d|].
  destruct (exec_accounts_unique c d Huniq) as (d1 & Hex & Huniq1).
  cbn [run foldl]. rewrite Hex. by apply IH.
Qed.

End Accounts.

(** C4. Calls of the specified operations (issue, verify, progress upsert,
    leaderboard), in any number and order, keep at most one account per
    identity. A successful verification leaves the [user] collection as it
    was when the identity has an account, and otherwise appends one account
    with the default role, locale and points; after two successful
    verifications for one identity there is exactly one account for it. *)
Theorem verify_otp_accounts_unique :
  (∀ d cs, accounts_unique d →
     ∃ d', run cs (Some d) = Some d' ∧ accounts_unique d')
  ∧ (∀ d now tok created e c out d',
       verify_otp now tok created
         {| VerifyOTPBody.email := e; VerifyOTPBody.code := c |} (Some d)
       = (Ok out, Some d') →
       (select (email_query e) (coll d "user") ≠ [] →
        coll d' "user" = coll d "user")
       ∧ (select (email_query e) (coll d "user") = [] →
          coll d' "user"
          = coll d "user"
              ++ [ {[ "name" := VNull; "email" := VStr e;
                      "role" := VStr "student"; "avatar_url" := VNull;
                      "locale" := VStr "en"; "points" := VNum 0 ]} ]))
  ∧ (∀ d now1 tok1 created1 now2 tok2 created2 e c1 c2 out1 out2 d1 d2,
       accounts_unique d →
       verify_otp now1 tok1 created1
         {| VerifyOTPBody.email := e; VerifyOTPBody.code := c1 |} (Some d)
       = (Ok out1, Some d1) →
       verify_otp now2 tok2 created2
         {| VerifyOTPBody.email := e; VerifyOTPBody.code := c2 |} (Some d1)
       = (Ok out2, Some d2) →
       length (select (email_query e) (coll d2 "user")) = 1%nat).
Proof.
  assert (Hstep : ∀ d now tok created e c out d',
    verify_otp now tok created
      {| VerifyOTPBody.email := e; VerifyOTPBody.code := c |} (Some d)
    = (Ok out, Some d') →
    coll d' "user"
    = match find_one (email_query e) (coll d "user") with
      | Some _ => coll d "user"
      | None => coll d "user" ++ [default_account e]
      end).
  { intros d now tok created e c out d' Hv.
    apply verify_otp_ok in Hv as [_ [= ->]]. by rewrite coll_verified_user. }
  split; [intros d cs; apply run_accounts_unique|]. split.
  - intros d now tok created e c out d' Hv. rewrite (Hstep _ _ _ _ _ _ _ _ Hv).
    destruct (find_one (email_query e) (coll d "user")) as [u|] eqn:Hf.
    + split; [done|]. intros Hnil. apply find_one_None_select in Hnil. congruence.
    + split; [|done]. intros Hne. by apply find_one_None_select in Hf.
  - intros d now1 tok1 created1 now2 tok2 created2 e c1 c2 out1 out2 d1 d2
      Huniq Hv1 Hv2.
    assert (Huniq2 : accounts_unique d2).
    { destruct (run_accounts_unique
                  [VerifyOTP now1 tok1 created1
                     {| VerifyOTPBody.email := e; VerifyOTPBody.code := c1 |};
                   VerifyOTP now2 tok2 created2
                     {| VerifyOTPBody.email := e; VerifyOTPBody.code := c2 |}]
                  d Huniq) as (d2' & Hrun & Huniq2).
      cbn [run foldl exec] in Hrun. rewrite Hv1 in Hrun. cbn [snd] in Hrun.
      rewrite Hv2 in Hrun. by injection Hrun as <-. }
    specialize (Huniq2 e).
    enough (select (email_query e) (coll d2 "user") ≠ []) as Hne
      by (destruct (select (email_query e) (coll d2 "user")); cbn in *; [done|lia]).
    rewrite <- find_one_None_select.
    rewrite (Hstep _ _ _ _ _ _ _ _ Hv2).
    destruct (find_one (email_query e) (coll d1 "user")) as [u|] eqn:Hf;
      [by rewrite Hf|].
    rewrite (find_one_snoc _ _ (default_account e)); [done | done |].
    by apply matches_default_account.
Qed.

(** Issue, verify twice, issue and verify again for [a@x.com] on an empty
    store: one account. *)
Lemma verify_otp_accounts_unique_witness :
  accounts_unique ∅
  ∧ ∃ d',
      run [RequestOTP 42 0 {| RequestOTPBody.email := "a@x.com" |};
           VerifyOTP 1 "tok1" 1
             {| VerifyOTPBody.email := "a@x.com"; VerifyOTPBody.code := "000042" |};
           VerifyOTP 2 "tok2" 2
             {| VerifyOTPBody.email := "a@x.com"; VerifyOTPBody.code := "000042" |}]
        (Some ∅)
      = Some d'
      ∧ accounts_unique d'.
Proof.
  assert (accounts_unique ∅) as H0
    by (intros e; unfold coll; rewrite lookup_empty; apply Nat.le_0_l).
  split; [exact H0|].
  destruct verify_otp_accounts_unique as [H _]. apply H. exact H0.
Defined.

(** ** Progress records *)

Section Progress.

Lemma matches_cond_get (r : doc) k v :
  matches_cond r (k, v) = bool_decide (get r k = v).
Proof.
  unfold matches_cond, get; cbn [fst snd]. destruct (r !! k) as [w|]; [done|].
  cbn [default]. apply bool_decide_ext. split; congruence.
Qed.

Lemma matches_progress_key (r : doc) u c l :
  matches (progress_key u c l) r = true
  ↔ get r "user_email" = VStr u ∧ get r "course_id" = VStr c
    ∧ get r "lesson_id" = User.opt_str l.
Proof.
  unfold matches, progress_key. cbn [forallb].
  rewrite !matches_cond_get, andb_true_r, !andb_true_iff, !bool_decide_eq_true.
  done.
Qed.

(** Two documents with the same key fields are selected by the same keys. *)
Lemma matches_progress_key_ext (r1 r2 : doc) u c l :
  get r1 "user_email" = get r2 "user_email" →
  get r1 "course_id" = get r2 "course_id" →
  get r1 "lesson_id" = get r2 "lesson_id" →
  matches (progress_key u c l) r1 = matches (progress_key u c l) r2.
Proof.
  intros H1 H2 H3. unfold matches, progress_key. cbn [forallb].
  by rewrite !matches_cond_get, H1, H2, H3.
Qed.

Lemma lookup_apply_update (set r : doc) now k :
  apply_update set now r !! k
  = if decide (k = "updated_at") then Some (VDate now)
    else match set !! k with
         | Some v => Some v
         | None => r !! k
         end.
Proof.
  unfold apply_update. case_decide as Hk.
  - subst. apply lookup_insert_eq.
  - rewrite lookup_insert_ne by done. rewrite lookup_union.
    destruct (set !! k), (r !! k); done.
Qed.

Lemma get_apply_update (set r : doc) now k :
  k ≠ "updated_at" →
  get (apply_update set now r) k
  = match set !! k with
    | Some v => v
    | None => get r k
    end.
Proof.
  intros Hk. unfold get. rewrite lookup_apply_update, decide_False by done.
  by destruct (set !! k).
Qed.

Lemma dump_user_email body :
  Progress.model_dump_exclude_unset body !! "user_email"
  = Some (VStr (Progress.user_email body)).
Proof. destruct body as [u c [l|] [b|] [s|]]; reflexivity. Qed.

Lemma dump_course_id body :
  Progress.model_dump_exclude_unset body !! "course_id"
  = Some (VStr (Progress.course_id body)).
Proof. destruct body as [u c [l|] [b|] [s|]]; reflexivity. Qed.

Lemma dump_lesson_id body :
  Progress.model_dump_exclude_unset body !! "lesson_id"
  = User.opt_str <$> Progress.lesson_id body.
Proof. destruct body as [u c [l|] [b|] [s|]]; reflexivity. Qed.

(** The update writes the key fields the record already has. *)
Lemma apply_update_keeps_key body now (r : doc) :
  matches (body_key body) r = true →
  get (apply_update (Progress.model_dump_exclude_unset body) now r) "user_email"
  = get r "user_email"
  ∧ get (apply_update (Progress.model_dump_exclude_unset body) now r) "course_id"
    = get r "course_id"
  ∧ get (apply_update (Progress.model_dump_exclude_unset body) now r) "lesson_id"
    = get r "lesson_id".
Proof.
  intros (Hu & Hc & Hl)%matches_progress_key.
  rewrite !get_apply_update by done.
  rewrite dump_user_email, dump_course_id, dump_lesson_id.
  repeat split; try done.
  rewrite Hl. unfold body_lesson.
  by destruct (Progress.lesson_id body) as [l|].
Qed.

(** The inserted document carries the key of the call. *)
Lemma inserted_key body now :
  get (apply_update (Progress.model_dump_exclude_unset body) now
         (list_to_map (body_key body))) "user_email"
  = VStr (Progress.user_email body)
  ∧ get (apply_update (Progress.model_dump_exclude_unset body) now
           (list_to_map (body_key body))) "course_id"
    = VStr (Progress.course_id body)
  ∧ get (apply_update (Progress.model_dump_exclude_unset body) now
           (list_to_map (body_key body))) "lesson_id"
    = User.opt_str (body_lesson body).
Proof.
  rewrite !get_apply_update by done.
  rewrite dump_user_email, dump_course_id, dump_lesson_id.
  repeat split; try done.
  unfold body_key, body_lesson.
  by destruct (Progress.lesson_id body) as [[l|]|].
Qed.

Lemma opt_str_inj l1 l2 : User.opt_str l1 = User.opt_str l2 → l1 = l2.
Proof. destruct l1, l2; cbn; congruence. Qed.

(** The shape of a collection in which [update_first] finds a record. *)
Lemma update_first_Some flt upd col col' :
  update_first flt upd col = Some col' →
  ∃ l1 r l2, col = l1 ++ r :: l2 ∧ col' = l1 ++ upd r :: l2
             ∧ matches flt r = true ∧ find_one flt l1 = None.
Proof.
  revert col'. induction col as [|x col IH]; intros col'; cbn [update_first];
    [done|].
  destruct (matches flt x) eqn:Hx.
  - intros [= <-]. by exists [], x, col.
  - destruct (update_first flt upd col) as [c|]; [|done].
    intros [= <-]. destruct (IH c eq_refl) as (l1 & r & l2 & -> & -> & Hr & Hl1).
    exists (x :: l1), r, l2. repeat split; try done.
    cbn [find_one]. by rewrite Hx.
Qed.

Lemma update_first_None flt upd col :
  update_first flt upd col = None ↔ find_one flt col = None.
Proof.
  induction col as [|x col IH]; cbn [update_first find_one]; [done|].
  destruct (matches flt x); [done|].
  rewrite <- IH. by destruct (update_first flt upd col).
Qed.

Lemma length_select_mid flt l1 (r : doc) l2 :
  length (select flt (l1 ++ r :: l2))
  = (length (select flt l1) + (if matches flt r then 1 else 0)
     + length (select flt l2))%nat.
Proof.
  change (r :: l2) with ([r] ++ l2).
  rewrite !select_app, select_singleton, !length_app.
  destruct (matches flt r); cbn [length]; lia.
Qed.

(** One upsert keeps the key of every record and inserts, if anything, a
    record whose key had none. *)
Lemma update_one_upsert_unique body now col :
  (∀ u c l, (length (select (progress_key u c l) col) ≤ 1)%nat) →
  ∀ u c l,
    (length (select (progress_key u c l)
               (update_one_upsert (body_key body)
                  (Progress.model_dump_exclude_unset body) now col)) ≤ 1)%nat.
Proof.
  intros Huniq u c l. unfold update_one_upsert.
  destruct (update_first _ _ col) as [col'|] eqn:Hup.
  - apply update_first_Some in Hup as (l1 & r & l2 & -> & -> & Hr & _).
    specialize (Huniq u c l). rewrite length_select_mid in Huniq.
    rewrite length_select_mid.
    destruct (apply_update_keeps_key body now r Hr) as (H1 & H2 & H3).
    by rewrite (matches_progress_key_ext _ r u c l H1 H2 H3).
  - apply update_first_None in Hup.
    rewrite select_app, select_singleton, length_app.
    destruct (matches (progress_key u c l) _) eqn:Hm.
    + apply matches_progress_key in Hm as (Hu & Hc & Hl).
      destruct (inserted_key body now) as (H1 & H2 & H3).
      rewrite H1 in Hu. rewrite H2 in Hc. rewrite H3 in Hl.
      injection Hu as <-. injection Hc as <-. apply opt_str_inj in Hl as <-.
      apply find_one_None_select in Hup. unfold body_key in Hup.
      rewrite Hup. cbn. lia.
    + specialize (Huniq u c l). cbn. lia.
Qed.

Lemma exec_progress c d :
  ∃ d', exec c (Some d) = Some d'
        ∧ (coll d' "progress" = coll d "progress"
           ∨ ∃ now body,
               coll d' "progress"
               = update_one_upsert (body_key body)
                   (Progress.model_dump_exclude_unset body) now
                   (coll d "progress")).
Proof.
  destruct c as [entropy now [e]|now tok created [e c]|now body|limit];
    cbn [exec].
  - rewrite request_otp_unfold. eexists; split; [done|]. left.
    by rewrite coll_insert_ne.
  - destruct (verify_otp now tok created _ (Some d)) as [[out|err] w] eqn:Hv.
    + apply verify_otp_ok in Hv as [_ ->]. eexists; split; [done|]. left.
      apply coll_verified_progress.
    + pose proof (verify_otp_raise_frame (Some d) now tok created
                    {| VerifyOTPBody.email := e; VerifyOTPBody.code := c |} err)
        as Hfr.
      rewrite Hv in Hfr. cbn [fst snd] in *. rewrite Hfr by done. eauto.
  - rewrite upsert_progress_unfold. eexists; split; [done|]. right.
    exists now, body. by rewrite coll_insert_eq.
  - rewrite leaderboard_frame. eauto.
Qed.

Lemma run_progress_unique cs : ∀ d,
  progress_unique d →
  ∃ d', run cs (Some d) = Some d' ∧ progress_unique d'.
Proof.
  induction cs as [|c cs IH]; intros d Huniq; [by exists d|].
  destruct (exec_progress c d) as (d1 & Hex & Hcol).
  cbn [run foldl]. rewrite Hex. apply IH. unfold progress_unique.
  destruct Hcol as [->|(now & body & ->)]; [done|].
  by apply update_one_upsert_unique.
Qed.

(** The record of the call's key after the upsert: the update of the one
    found, or of the document made of the key. *)
Lemma update_one_upsert_find body now col :
  find_one (body_key body)
    (update_one_upsert (body_key body)
       (Progress.model_dump_exclude_unset body) now col)
  = Some (apply_update (Progress.model_dump_exclude_unset body) now
            (default (list_to_map (body_key body))
               (find_one (body_key body) col))).
Proof.
  unfold update_one_upsert.
  destruct (update_first _ _ col) as [col'|] eqn:Hup.
  - apply update_first_Some in Hup as (l1 & r & l2 & -> & -> & Hr & Hl1).
    rewrite !find_one_app, Hl1. cbn [find_one]. rewrite Hr. cbn [default].
    destruct (apply_update_keeps_key body now r Hr) as (H1 & H2 & H3).
    unfold body_key in *.
    by rewrite (matches_progress_key_ext _ r _ _ _ H1 H2 H3), Hr.
  - apply update_first_None in Hup. rewrite Hup. cbn [default].
    apply find_one_snoc; [done|].
    apply matches_progress_key. apply inserted_key.
Qed.

End Progress.

Lemma dump_completed body :
  Progress.model_dump_exclude_unset body !! "completed"
  = VBool <$> Progress.completed body.
Proof. destruct body as [u c [l|] [b|] [s|]]; reflexivity. Qed.

Lemma dump_score body :
  Progress.model_dump_exclude_unset body !! "score"
  = (λ s, match s with Some n => VNum n | None => VNull end)
      <$> Progress.score body.
Proof. destruct body as [u c [l|] [b|] [s|]]; reflexivity. Qed.

(** C7. Through calls of the specified operations, in any number and order,
    there is at most one progress record per key (identity, course, lesson or
    none). After an upsert there is exactly one record of the call's key; in
    it every field the call supplied (every field of
    [model_dump(exclude_unset=True)]) has the supplied value, every other
    field except the store-maintained [updated_at] has the value it had in
    the record found for the key, and [updated_at] is the time of the call.
    Upserting [completed: true] and then [score: 80] for one key leaves one
    record with both. *)
Theorem upsert_progress_merge :
  (∀ d cs, progress_unique d →
     ∃ d', run cs (Some d) = Some d' ∧ progress_unique d')
  ∧ (∀ d now body, progress_unique d →
       ∃ d' r',
         upsert_progress now body (Some d)
         = (Ok {[ "ok" := VBool true ]}, Some d')
         ∧ progress_unique d'
         ∧ select (body_key body) (coll d' "progress") = [r']
         ∧ (∀ k v, Progress.model_dump_exclude_unset body !! k = Some v →
                   r' !! k = Some v)
         ∧ (∀ r k, find_one (body_key body) (coll d "progress") = Some r →
                   Progress.model_dump_exclude_unset body !! k = None →
                   k ≠ "updated_at" → r' !! k = r !! k)
         ∧ r' !! "updated_at" = Some (VDate now))
  ∧ (∃ d' r,
       run [UpsertProgress 5 progress_completed;
            UpsertProgress 7 progress_score_80] (Some ∅) = Some d'
       ∧ coll d' "progress" = [r]
       ∧ r !! "completed" = Some (VBool true)
       ∧ r !! "score" = Some (VNum 80)).
Proof.
  split; [intros d cs; apply run_progress_unique|]. split.
  - intros d now body Huniq.
    set (set := Progress.model_dump_exclude_unset body).
    set (col' := update_one_upsert (body_key body) set now (coll d "progress")).
    set (r' := apply_update set now
                 (default (list_to_map (body_key body))
                    (find_one (body_key body) (coll d "progress")))).
    assert (Hfind : find_one (body_key body) col' = Some r')
      by apply update_one_upsert_find.
    assert (Huniq' : ∀ u c l, (length (select (progress_key u c l) col') ≤ 1)%nat)
      by (by apply update_one_upsert_unique).
    exists (<["progress" := col']> d), r'.
    split; [apply upsert_progress_unfold|].
    split; [intros u c l; by rewrite coll_insert_eq|].
    rewrite coll_insert_eq. split.
    { rewrite find_one_select in Hfind.
      specialize (Huniq' (Progress.user_email body) (Progress.course_id body)
                    (body_lesson body)).
      fold (body_key body) in Huniq'.
      destruct (select (body_key body) col') as [|x [|y rest]];
        cbn in *; [done | congruence | lia]. }
    split.
    { intros k v Hk. unfold r'. rewrite lookup_apply_update.
      case_decide as Hupd; [|by rewrite Hk].
      subst k. unfold set in Hk.
      destruct body as [u c [l|] [b|] [s|]]; discriminate Hk. }
    split.
    { intros r k Hr Hk Hupd. unfold r'.
      by rewrite lookup_apply_update, decide_False, Hk, Hr. }
    unfold r'. by rewrite lookup_apply_update, decide_True.
  - cbn [run foldl exec]. rewrite upsert_progress_unfold. cbn [snd].
    rewrite upsert_progress_unfold. cbn [snd].
    eexists _,
      (apply_update (Progress.model_dump_exclude_unset progress_score_80) 7
         (apply_update (Progress.model_dump_exclude_unset progress_completed) 5
            (list_to_map (body_key progress_completed)))).
    split; [reflexivity|]. rewrite !coll_insert_eq.
    split; [reflexivity|]. split; reflexivity.
Qed.

Lemma upsert_progress_merge_witness :
  progress_unique ∅
  ∧ ∃ d' r',
      upsert_progress 5 progress_completed (Some ∅)
      = (Ok {[ "ok" := VBool true ]}, Some d')
      ∧ progress_unique d'
      ∧ select (body_key progress_completed) (coll d' "progress") = [r']
      ∧ (∀ k v, Progress.model_dump_exclude_unset progress_completed !! k
                = Some v → r' !! k = Some v)
      ∧ (∀ r k, find_one (body_key progress_completed) (coll ∅ "progress")
                = Some r →
                Progress.model_dump_exclude_unset progress_completed !! k = None →
                k ≠ "updated_at" → r' !! k = r !! k)
      ∧ r' !! "updated_at" = Some (VDate 5).
Proof.
  assert (progress_unique ∅) as H0
    by (intros u c l; unfold coll; rewrite lookup_empty; apply Nat.le_0_l).
  split; [exact H0|].
  destruct upsert_progress_merge as (_ & H & _).
  apply (H ∅ 5 progress_completed H0).
Defined.

(** ** Leaderboard *)

Section Aggregation.


(** Beyond [2^53] a tie goes to the even significand, on both sides of 0. *)
Lemma round_double_ties :
  round_double (2 ^ 53 + 1) = 2 ^ 53
  ∧ round_double (2 ^ 53 + 3) = 2 ^ 53 + 4
  ∧ round_double (- (2 ^ 53 + 1)) = - 2 ^ 53
  ∧ round_double (2 ^ 54 - 1) = 2 ^ 54.
Proof. repeat split; reflexivity. Qed.















Lemma leaderboard_unfold d limit :
  leaderboard limit (Some d)
  = match stage_limit limit (stage_sort (stage_group (coll d "progress"))) with
    | Ok rows => (Ok (leaderboard_entry <$> rows), Some d)
    | Raise err => (Raise err, Some d)
    end.
Proof.
  unfold leaderboard, aggregate, mbind, M_bind, _collection.
  by destruct (stage_limit limit _).
Qed.

End Aggregation.




(** C9, as stated, fails: with the limit 0 the call does fail, but with the
    driver's [OperationFailure], which is not the argument error. *)
Lemma leaderboard_limit_zero_counterexample :
  0 ≤ 0
  ∧ (leaderboard 0 (Some store_scores)).1 = Raise OperationFailure
  ∧ (leaderboard 0 (Some store_scores)).1 ≠ Raise InvalidArgument.
Proof.
  split; [lia|]. split; [reflexivity|]. discriminate.
Qed.

(** C9, amended. [leaderboard] does not validate its limit; a limit that is
    not positive reaches the store's [$limit] stage, which rejects it, and the
    call fails with the driver's [OperationFailure]: no entries are returned,
    neither all nor none, and the store is left as it was. *)
Theorem leaderboard_nonpositive_limit d n :
  n ≤ 0 → leaderboard n (Some d) = (Raise OperationFailure, Some d).
Proof.
  intros Hn. rewrite leaderboard_unfold. unfold stage_limit.
  destruct (n <=? 0) eqn:Hle; [done|]. apply Z.leb_gt in Hle. lia.
Qed.

Lemma leaderboard_nonpositive_limit_witness :
  -3 ≤ 0
  ∧ leaderboard (-3) (Some store_scores)
    = (Raise OperationFailure, Some store_scores).
Proof.
  split; [lia|]. apply leaderboard_nonpositive_limit. lia.
Defined.

(** * Further properties of the handlers *)

(** ** The generated code, continued *)

(** X1. Two draws yield the same code exactly when they agree modulo one
    million: the six digits render the number drawn without loss, so the
    million numbers below [10^6] have a million different codes. *)
Theorem issued_code_inj e1 e2 :
  issued_code e1 = issued_code e2 ↔ e1 mod 1000000 = e2 mod 1000000.
Proof.
  destruct (issued_code_shape e1) as (_ & _ & H1).
  destruct (issued_code_shape e2) as (_ & _ & H2).
  unfold randbelow in *. split.
  - intros Heq. by rewrite <- H1, <- H2, Heq.
  - intros Heq. unfold issued_code, randbelow. by rewrite Heq.
Qed.

(** ** Verification, continued *)

Lemma verify_otp_ok_iff d now tok created e c :
  (∃ out w,
     verify_otp now tok created
       {| VerifyOTPBody.email := e; VerifyOTPBody.code := c |} (Some d)
     = (Ok out, w))
  ↔ ∃ r, find_one (otp_query e c) (coll d "otp") = Some r
         ∧ (truthy (get r "expires_at") = false
            ∨ ∃ t, r !! "expires_at" = Some (VDate t) ∧ now ≤ t).
Proof.
  rewrite verify_otp_unfold.
  destruct (find_one (otp_query e c) (coll d "otp")) as [r|] eqn:Hr;
    [|split; [by intros (? & ? & [=]) | by intros (? & [=] & _)]].
  destruct (truthy (get r "expires_at")) eqn:Ht;
    [|split; [intros _; exists r; auto | by eauto]].
  assert (Hdate : ∀ t, r !! "expires_at" = Some (VDate t)
                       ↔ get r "expires_at" = VDate t).
  { intros t. unfold get. destruct (r !! "expires_at"); cbn;
      split; intros; congruence. }
  destruct (get r "expires_at") as [| | | |t] eqn:Hg.
  1-4: split; [by intros (? & ? & [=])|];
       intros (? & [= <-] & [Hf|(t & Ht' & _)]); [congruence|];
       apply Hdate in Ht'; congruence.
  destruct (t <? now) eqn:Hlt.
  - apply Z.ltb_lt in Hlt. split; [by intros (? & ? & [=])|].
    intros (? & [= <-] & [Hf|(t' & Ht' & Hle)]); [congruence|].
    apply Hdate in Ht'. injection Ht' as <-. lia.
  - apply Z.ltb_ge in Hlt. split; [|by eauto].
    intros _. exists r. split; [done|]. right. exists t.
    split; [by apply Hdate | done].
Qed.

(** X2. [verify_otp] succeeds exactly when the first stored record matching
    identity and code exists and passes the expiry test: its [expires_at] is
    false for Python, or is a time not before the current one. *)
Theorem verify_otp_succeeds_iff d now tok created e c :
  (∃ out w,
     verify_otp now tok created
       {| VerifyOTPBody.email := e; VerifyOTPBody.code := c |} (Some d)
     = (Ok out, w))
  ↔ ∃ r, find_one (otp_query e c) (coll d "otp") = Some r
         ∧ (truthy (get r "expires_at") = false
            ∨ ∃ t, r !! "expires_at" = Some (VDate t) ∧ now ≤ t).
Proof. apply verify_otp_ok_iff. Qed.

(** X3. When the first matching record has an [expires_at] that is true for
    Python without being a time (a number, a string, [True]), [verify_otp]
    ends with Python's [TypeError], neither with "Code expired" nor with a
    token, and writes nothing. *)
Theorem verify_otp_type_error d now tok created e c r :
  find_one (otp_query e c) (coll d "otp") = Some r →
  truthy (get r "expires_at") = true →
  (∀ t, r !! "expires_at" ≠ Some (VDate t)) →
  verify_otp now tok created
    {| VerifyOTPBody.email := e; VerifyOTPBody.code := c |} (Some d)
  = (Raise TypeError, Some d).
Proof.
  intros Hr Ht Hnd. rewrite verify_otp_unfold, Hr, Ht.
  unfold get in *. destruct (r !! "expires_at") as [[| | | |t]|] eqn:Hv;
    cbn in *; try done.
  by destruct (Hnd t).
Qed.

Lemma verify_otp_type_error_witness :
  find_one (otp_query "a@x.com" "000042")
    (coll {[ "otp" := [ {[ "email" := VStr "a@x.com"; "code" := VStr "000042";
                           "expires_at" := VStr "tomorrow" ]} ] ]} "otp")
  = Some {[ "email" := VStr "a@x.com"; "code" := VStr "000042";
            "expires_at" := VStr "tomorrow" ]}
  ∧ verify_otp 5 "tok" 5
      {| VerifyOTPBody.email := "a@x.com"; VerifyOTPBody.code := "000042" |}
      (Some {[ "otp" := [ {[ "email" := VStr "a@x.com";
                             "code" := VStr "000042";
                             "expires_at" := VStr "tomorrow" ]} ] ]})
    = (Raise TypeError,
       Some {[ "otp" := [ {[ "email" := VStr "a@x.com"; "code" := VStr "000042";
                             "expires_at" := VStr "tomorrow" ]} ] ]}).
Proof.
  split; [reflexivity|].
  apply (verify_otp_type_error _ 5 "tok" 5 "a@x.com" "000042"
           {[ "email" := VStr "a@x.com"; "code" := VStr "000042";
              "expires_at" := VStr "tomorrow" ]}).
  - reflexivity.
  - reflexivity.
  - intros t. discriminate.
Defined.

(** X4. Whatever its outcome, [verify_otp] deletes and rewrites nothing:
    every collection keeps its records in place, only [session] and [user]
    can grow, each by one record at most. *)
Theorem verify_otp_only_appends d now tok created body :
  ∃ d' s u,
    (verify_otp now tok created body (Some d)).2 = Some d'
    ∧ coll d' "session" = coll d "session" ++ s ∧ (length s ≤ 1)%nat
    ∧ coll d' "user" = coll d "user" ++ u ∧ (length u ≤ 1)%nat
    ∧ ∀ name, name ≠ "session" → name ≠ "user" → coll d' name = coll d name.
Proof.
  destruct body as [e c].
  destruct (verify_otp now tok created _ (Some d)) as [[out|err] w] eqn:Hv.
  - apply verify_otp_ok in Hv as [_ ->].
    exists (verified d e tok created), [session_record e tok created],
      (match find_one (email_query e) (coll d "user") with
       | Some _ => []
       | None => [default_account e]
       end).
    split; [done|]. split; [apply coll_verified_session|]. split; [done|].
    split.
    { rewrite coll_verified_user.
      destruct (find_one (email_query e) (coll d "user")); [by rewrite app_nil_r | done]. }
    split; [by destruct (find_one (email_query e) (coll d "user")); cbn; lia|].
    intros name Hs Hu. unfold verified.
    rewrite coll_with_account, decide_False by done.
    by rewrite coll_with_session, decide_False.
  - pose proof (verify_otp_raise_frame (Some d) now tok created
                  {| VerifyOTPBody.email := e; VerifyOTPBody.code := c |} err) as Hfr.
    rewrite Hv in Hfr. cbn [fst snd] in *. rewrite Hfr by done.
    exists d, [], []. rewrite !app_nil_r. repeat split; try done; cbn; lia.
Qed.

(** X5. Time only works against a code: a verification that succeeds at one
    time succeeds, on the same store, at every earlier time, and one that
    fails with "Code expired" fails so at every later time. *)
Theorem verify_otp_monotone_in_time :
  (∀ d now now' tok created tok' created' body out w,
     verify_otp now tok created body (Some d) = (Ok out, w) → now' ≤ now →
     ∃ out' w', verify_otp now' tok' created' body (Some d) = (Ok out', w'))
  ∧ (∀ d now now' tok created tok' created' body w,
       verify_otp now tok created body (Some d) = (Raise CodeExpired, w) →
       now ≤ now' →
       verify_otp now' tok' created' body (Some d) = (Raise CodeExpired, Some d)).
Proof.
  split.
  - intros d now now' tok created tok' created' [e c] out w Hv Hle.
    apply verify_otp_ok_iff.
    assert (∃ out w, verify_otp now tok created
                       {| VerifyOTPBody.email := e; VerifyOTPBody.code := c |}
                       (Some d) = (Ok out, w)) as Hex by eauto.
    apply verify_otp_ok_iff in Hex as (r & Hr & [Hf|(t & Ht & Hnow)]).
    + exists r. auto.
    + exists r. split; [done|]. right. exists t. split; [done | lia].
  - intros d now now' tok created tok' created' [e c] w Hv Hle.
    rewrite verify_otp_unfold in *.
    destruct (find_one (otp_query e c) (coll d "otp")) as [r|]; [|done].
    destruct (truthy (get r "expires_at")); [|done].
    destruct (get r "expires_at") as [| | | |t]; try done.
    destruct (t <? now) eqn:Hlt; [|done]. apply Z.ltb_lt in Hlt.
    destruct (t <? now') eqn:Hlt'; [done|]. apply Z.ltb_ge in Hlt'. lia.
Qed.

Lemma verify_otp_monotone_in_time_witness :
  verify_otp 601000000 "tok" 601000000
    {| VerifyOTPBody.email := "a@x.com"; VerifyOTPBody.code := "000042" |}
    (Some store_live_then_expired)
  = (Raise CodeExpired, Some store_live_then_expired)
  ∧ verify_otp 700000000 "tok2" 700000000
      {| VerifyOTPBody.email := "a@x.com"; VerifyOTPBody.code := "000042" |}
      (Some store_live_then_expired)
    = (Raise CodeExpired, Some store_live_then_expired).
Proof.
  assert (verify_otp 601000000 "tok" 601000000
            {| VerifyOTPBody.email := "a@x.com"; VerifyOTPBody.code := "000042" |}
            (Some store_live_then_expired)
          = (Raise CodeExpired, Some store_live_then_expired)) as H
    by reflexivity.
  split; [exact H|].
  destruct verify_otp_monotone_in_time as [_ Hm].
  apply (Hm _ 601000000 700000000 "tok" 601000000 "tok2" 700000000 _ _ H).
  lia.
Defined.

(** ** Progress records, continued *)

Section ProgressMore.

Lemma apply_update_twice (set r : doc) now1 now2 :
  apply_update set now2 (apply_update set now1 r) = apply_update set now2 r.
Proof.
  apply map_eq. intros k. rewrite !lookup_apply_update.
  case_decide; [done|]. by destruct (set !! k).
Qed.

Lemma update_first_mid flt upd l1 (r : doc) l2 :
  find_one flt l1 = None → matches flt r = true →
  update_first flt upd (l1 ++ r :: l2) = Some (l1 ++ upd r :: l2).
Proof.
  intros Hl1 Hr. induction l1 as [|x l1 IH]; cbn [update_first app].
  - by rewrite Hr.
  - cbn [find_one] in Hl1. destruct (matches flt x); [done|].
    by rewrite IH.
Qed.

Lemma matches_updated body now r :
  matches (body_key body) r = true →
  matches (body_key body)
    (apply_update (Progress.model_dump_exclude_unset body) now r) = true.
Proof.
  intros Hr. destruct (apply_update_keeps_key body now r Hr) as (H1 & H2 & H3).
  unfold body_key in *.
  by rewrite (matches_progress_key_ext _ r _ _ _ H1 H2 H3).
Qed.

Lemma matches_inserted body now :
  matches (body_key body)
    (apply_update (Progress.model_dump_exclude_unset body) now
       (list_to_map (body_key body))) = true.
Proof. apply matches_progress_key, inserted_key. Qed.

Lemma update_one_upsert_twice body now1 now2 col :
  update_one_upsert (body_key body) (Progress.model_dump_exclude_unset body) now2
    (update_one_upsert (body_key body) (Progress.model_dump_exclude_unset body)
       now1 col)
  = update_one_upsert (body_key body) (Progress.model_dump_exclude_unset body)
      now2 col.
Proof.
  unfold update_one_upsert at 2 3.
  destruct (update_first _ (apply_update _ now1) col) as [c1|] eqn:Hup.
  - apply update_first_Some in Hup as (l1 & r & l2 & -> & -> & Hr & Hl1).
    unfold update_one_upsert.
    rewrite !update_first_mid by (try done; by apply matches_updated).
    by rewrite apply_update_twice.
  - pose proof Hup as Hnone. apply update_first_None in Hnone.
    rewrite (proj2 (update_first_None _ (apply_update _ now2) col) Hnone).
    unfold update_one_upsert.
    rewrite update_first_mid by (try done; apply matches_inserted).
    by rewrite apply_update_twice.
Qed.

End ProgressMore.

(** X6. Repeating a progress call changes nothing but the time of the
    update: two identical upserts, at times [now1] and [now2], leave the
    store that the second alone would have left. *)
Theorem upsert_progress_idempotent w now1 now2 body :
  (upsert_progress now2 body (upsert_progress now1 body w).2).2
  = (upsert_progress now2 body w).2.
Proof.
  destruct w as [d|]; [|done].
  rewrite !upsert_progress_unfold. cbn [snd].
  rewrite upsert_progress_unfold. cbn [snd].
  by rewrite coll_insert_eq, update_one_upsert_twice, insert_insert_eq.
Qed.

(** X7. A progress upsert touches the record of its key and nothing else.
    The collection grows by one record exactly when no record had the key;
    every record the key does not select stays where it was; the other
    collections are left as they were. *)
Theorem upsert_progress_frame d now body :
  ∃ d',
    upsert_progress now body (Some d) = (Ok {[ "ok" := VBool true ]}, Some d')
    ∧ length (coll d' "progress")
      = (length (coll d "progress")
         + match find_one (body_key body) (coll d "progress") with
           | Some _ => 0
           | None => 1
           end)%nat
    ∧ (∀ i r, coll d "progress" !! i = Some r →
              matches (body_key body) r = false →
              coll d' "progress" !! i = Some r)
    ∧ ∀ name, name ≠ "progress" → coll d' name = coll d name.
Proof.
  eexists. split; [apply upsert_progress_unfold|].
  rewrite coll_insert_eq.
  split; [|split; [|intros name Hn; by rewrite coll_insert_ne]].
  - unfold update_one_upsert.
    destruct (update_first _ _ (coll d "progress")) as [c|] eqn:Hup.
    + apply update_first_Some in Hup as (l1 & r & l2 & Hcol & -> & Hr & Hl1).
      rewrite Hcol, find_one_app, Hl1. cbn [find_one]. rewrite Hr.
      rewrite !length_app. cbn [length]. lia.
    + apply update_first_None in Hup. rewrite Hup, length_app. cbn [length]. lia.
  - intros i r Hi Hr. unfold update_one_upsert.
    destruct (update_first _ _ (coll d "progress")) as [c|] eqn:Hup.
    + apply update_first_Some in Hup as (l1 & r0 & l2 & Hcol & -> & Hr0 & Hl1).
      rewrite Hcol in Hi.
      destruct (decide (i = length l1)) as [->|Hne].
      * rewrite list_lookup_middle in Hi by done. injection Hi as ->. congruence.
      * destruct (decide (i < length l1)%nat).
        -- rewrite lookup_app_l in * by done. done.
        -- rewrite lookup_app_r in * by lia.
           destruct (i - length l1)%nat as [|j] eqn:Hj; [lia|]. done.
    + by apply lookup_app_l_Some.
Qed.

(** ** Leaderboard, continued *)

Section AggregationMore.



End AggregationMore.



(** ** Documents handed back to the caller *)

Section ReadersFacts.

Variable py_str : value → string.

Lemma to_dict_Some (d : doc) :
  _to_dict py_str (Some d)
  = Some (match d !! "_id" with
          | Some v => <["id" := VStr (py_str v)]> (delete "_id" d)
          | None => d
          end).
Proof.
  unfold _to_dict, truthy_rec. case_bool_decide as Hd; [|done].
  subst d. by rewrite lookup_empty.
Qed.

Lemma to_dict_fields (d : doc) :
  ∃ r : doc,
    _to_dict py_str (Some d) = Some r
    ∧ r !! "_id" = None
    ∧ r !! "id" = match d !! "_id" with
                  | Some v => Some (VStr (py_str v))
                  | None => d !! "id"
                  end
    ∧ ∀ k, k ≠ "_id" → k ≠ "id" → r !! k = d !! k.
Proof.
  eexists. split; [apply to_dict_Some|].
  destruct (d !! "_id") as [v|] eqn:Hid.
  - split; [by rewrite lookup_insert_ne, lookup_delete_eq|].
    split; [by rewrite lookup_insert_eq|].
    intros k H1 H2. by rewrite lookup_insert_ne, lookup_delete_ne.
  - done.
Qed.

(** X9. [_to_dict] never hands out an [_id]: the field is removed and its
    string is stored under [id], replacing an [id] the document had; a
    document without [_id] keeps its [id]; every other field is kept as it
    is; and [None] stays [None]. *)
Theorem to_dict_spec :
  _to_dict py_str None = None
  ∧ ∀ d : doc,
      ∃ r : doc,
        _to_dict py_str (Some d) = Some r
        ∧ r !! "_id" = None
        ∧ r !! "id" = match d !! "_id" with
                      | Some v => Some (VStr (py_str v))
                      | None => d !! "id"
                      end
        ∧ ∀ k, k ≠ "_id" → k ≠ "id" → r !! k = d !! k.
Proof. split; [done | apply to_dict_fields]. Qed.

(** X10. [_to_dict] is idempotent: converting a converted document changes
    nothing. *)
Theorem to_dict_idempotent (o : option doc) :
  _to_dict py_str (_to_dict py_str o) = _to_dict py_str o.
Proof.
  destruct o as [d|]; [|done].
  destruct (to_dict_fields d) as (r & Hr & Hid & _).
  rewrite Hr, to_dict_Some. by rewrite Hid.
Qed.

(** What [find(flt).limit(n)] returns, seen through [_to_dict]. *)
Lemma find_limit_length flt n (col : list doc) :
  (length (find_limit flt n col) ≤ n)%nat.
Proof. unfold find_limit. rewrite length_take. lia. Qed.

Lemma find_limit_sublist flt n (col : list doc) :
  find_limit flt n col `sublist_of` col.
Proof.
  unfold find_limit, select. etrans; [apply sublist_take|].
  apply sublist_filter.
Qed.

Lemma find_limit_elem flt n (col : list doc) r :
  r ∈ find_limit flt n col → r ∈ col ∧ matches flt r = true.
Proof.
  intros Hr%subseteq_take. unfold select in Hr.
  apply list_elem_of_filter in Hr as [Hm Hr]. split; [done|].
  by destruct (matches flt r).
Qed.

Lemma find_limit_all flt n (col : list doc) r :
  (length (select flt col) ≤ n)%nat → r ∈ col → matches flt r = true →
  r ∈ find_limit flt n col.
Proof.
  intros Hlen Hr Hm. unfold find_limit. rewrite take_ge by done.
  apply list_elem_of_filter. split; [by rewrite Hm | done].
Qed.

Lemma matches_app flt1 flt2 (r : doc) :
  matches (flt1 ++ flt2) r = matches flt1 r && matches flt2 r.
Proof. unfold matches. apply forallb_app. Qed.

Lemma to_dict_field (r : doc) k :
  k ≠ "_id" → k ≠ "id" →
  ∃ r', _to_dict py_str (Some r) = Some r' ∧ r' !! "_id" = None
        ∧ r' !! k = r !! k.
Proof.
  intros H1 H2.
  destruct (to_dict_fields r) as (r' & Hr' & Hid & _ & Hk). exists r'. auto.
Qed.

Lemma progress_by_user_listing d u c :
  ∃ out,
    progress_by_user py_str u c (Some d) = (Ok out, Some d)
    ∧ (length out ≤ 500)%nat
    ∧ (∀ o, o ∈ out →
         ∃ r r', r ∈ coll d "progress" ∧ o = Some r'
                 ∧ _to_dict py_str (Some r) = Some r'
                 ∧ r' !! "_id" = None
                 ∧ r' !! "user_email" = Some (VStr u)
                 ∧ (truthy_str c = true →
                    r' !! "course_id" = Some (VStr (default EmptyString c))))
    ∧ ((length (select ([("user_email", VStr u)]
                          ++ (if truthy_str c
                              then [("course_id", VStr (default EmptyString c))]
                              else []))
                  (coll d "progress")) ≤ 500)%nat →
       ∀ r, r ∈ coll d "progress" → r !! "user_email" = Some (VStr u) →
            (truthy_str c = true →
             r !! "course_id" = Some (VStr (default EmptyString c))) →
            _to_dict py_str (Some r) ∈ out).
Proof.
  set (flt := [("user_email", VStr u)]
              ++ (if truthy_str c
                  then [("course_id", VStr (default EmptyString c))] else [])).
  exists ((λ r, _to_dict py_str (Some r)) <$> find_limit flt 500 (coll d "progress")).
  split; [reflexivity|].
  split; [rewrite length_fmap; apply find_limit_length|].
  assert (Hflt : ∀ r : doc, matches flt r = true
            ↔ r !! "user_email" = Some (VStr u)
              ∧ (truthy_str c = true →
                 r !! "course_id" = Some (VStr (default EmptyString c)))).
  { intros r. unfold flt. rewrite matches_app, andb_true_iff.
    unfold matches at 1. cbn [forallb]. rewrite andb_true_r, matches_cond_str.
    destruct (truthy_str c).
    - unfold matches. cbn [forallb]. rewrite andb_true_r, matches_cond_str.
      split; [intros [? ?]; auto | intros [? H]; auto].
    - split; [intros [? _]; split; [done | discriminate] | intros [? _]; auto]. }
  split.
  - intros o (r & -> & Hr)%list_elem_of_fmap.
    apply find_limit_elem in Hr as [Hin Hm]. apply Hflt in Hm as [Hu Hc].
    destruct (to_dict_field r "user_email") as (r' & Hr' & Hid & Hue); [done..|].
    destruct (to_dict_field r "course_id") as (r'' & Hr'' & _ & Hce); [done..|].
    rewrite Hr' in Hr''. injection Hr'' as <-.
    exists r, r'. repeat split; try done.
    + by rewrite Hue.
    + intros Hc'. by rewrite Hce, Hc.
  - intros Hlen r Hin Hu Hc. apply list_elem_of_fmap. exists r. split; [done|].
    apply find_limit_all; [done | done |]. apply Hflt. auto.
Qed.

(** X11. [progress_by_user] answers with at most 500 documents, each the
    conversion of a stored progress record of the given identity (and of the
    given course, when a non-empty course is given; an empty course is no
    filter), none showing an [_id]; and when the matching records are at most
    500, every one of them is in the answer. *)
Theorem progress_by_user_spec d u c :
  ∃ out,
    progress_by_user py_str u c (Some d) = (Ok out, Some d)
    ∧ (length out ≤ 500)%nat
    ∧ (∀ o, o ∈ out →
         ∃ r r', r ∈ coll d "progress" ∧ o = Some r'
                 ∧ _to_dict py_str (Some r) = Some r'
                 ∧ r' !! "_id" = None
                 ∧ r' !! "user_email" = Some (VStr u)
                 ∧ (truthy_str c = true →
                    r' !! "course_id" = Some (VStr (default EmptyString c))))
    ∧ ((length (select ([("user_email", VStr u)]
                          ++ (if truthy_str c
                              then [("course_id", VStr (default EmptyString c))]
                              else []))
                  (coll d "progress")) ≤ 500)%nat →
       ∀ r, r ∈ coll d "progress" → r !! "user_email" = Some (VStr u) →
            (truthy_str c = true →
             r !! "course_id" = Some (VStr (default EmptyString c))) →
            _to_dict py_str (Some r) ∈ out).
Proof. apply progress_by_user_listing. Qed.

(** X12. A progress record is readable as soon as it is written: after
    [upsert_progress], when the identity has at most 500 records,
    [progress_by_user] for that identity returns the record of the call's
    key, carrying every field the call supplied. *)
Theorem upsert_then_progress_by_user d now body :
  ∃ d' (r' : doc),
    (upsert_progress now body (Some d)).2 = Some d'
    ∧ find_one (body_key body) (coll d' "progress") = Some r'
    ∧ (∀ k v, Progress.model_dump_exclude_unset body !! k = Some v →
              r' !! k = Some v)
    ∧ ((length (select [("user_email", VStr (Progress.user_email body))]
                  (coll d' "progress")) ≤ 500)%nat →
       ∃ out,
         progress_by_user py_str (Progress.user_email body) None (Some d')
         = (Ok out, Some d')
         ∧ _to_dict py_str (Some r') ∈ out).
Proof.
  rewrite upsert_progress_unfold. cbn [snd].
  eexists _, _. split; [reflexivity|]. rewrite coll_insert_eq.
  split; [apply update_one_upsert_find|]. split.
  - intros k v Hk. rewrite lookup_apply_update. case_decide as Hupd; [|by rewrite Hk].
    subst k. destruct body as [u c [l|] [b|] [s|]]; discriminate Hk.
  - intros Hlen.
    destruct (progress_by_user_listing
                (<["progress" := update_one_upsert (body_key body)
                     (Progress.model_dump_exclude_unset body) now
                     (coll d "progress")]> d)
                (Progress.user_email body) None)
      as (out & Hout & _ & _ & Hall).
    exists out. split; [done|]. rewrite coll_insert_eq in Hall.
    pose proof (update_one_upsert_find body now (coll d "progress")) as Hf.
    apply find_one_Some in Hf as [Hin Hm].
    apply Hall; [done | done | | done].
    apply matches_progress_key in Hm as (Hu & _).
    unfold get in Hu.
    destruct (_ !! "user_email") as [v|]; cbn in Hu; [by subst v | done].
Qed.

End ReadersFacts.

(** ** Listing and editing accounts *)

Section AccountsMore.

Variable py_str : value → string.

(** A listing with one optional equality condition. *)
Lemma listing_optional k n (col : list doc) o :
  k ≠ "_id" → k ≠ "id" →
  let flt := if truthy_str o then [(k, VStr (default EmptyString o))] else [] in
  let out := (λ r, _to_dict py_str (Some r)) <$> find_limit flt n col in
  (length out ≤ n)%nat
  ∧ (∀ x, x ∈ out →
       ∃ r r', r ∈ col ∧ x = Some r' ∧ _to_dict py_str (Some r) = Some r'
               ∧ r' !! "_id" = None
               ∧ (truthy_str o = true →
                  r' !! k = Some (VStr (default EmptyString o))))
  ∧ ((length (select flt col) ≤ n)%nat →
     ∀ r, r ∈ col →
          (truthy_str o = true → r !! k = Some (VStr (default EmptyString o))) →
          _to_dict py_str (Some r) ∈ out)
  ∧ (truthy_str o = false → find_limit flt n col = take n col).
Proof.
  intros Hk1 Hk2 flt out.
  assert (Hflt : ∀ r : doc, matches flt r = true
            ↔ (truthy_str o = true →
               r !! k = Some (VStr (default EmptyString o)))).
  { intros r. unfold flt. destruct (truthy_str o).
    - unfold matches. cbn [forallb]. rewrite andb_true_r, matches_cond_str.
      split; auto.
    - split; [discriminate | done]. }
  split; [unfold out; rewrite length_fmap; apply find_limit_length|].
  split; [|split].
  - intros x (r & -> & Hr)%list_elem_of_fmap.
    apply find_limit_elem in Hr as [Hin Hm].
    destruct (to_dict_field py_str r k) as (r' & Hr' & Hid & Hf); [done..|].
    exists r, r'. repeat split; try done.
    intros Ho. rewrite Hf. by apply Hflt.
  - intros Hlen r Hin Hr. apply list_elem_of_fmap. exists r. split; [done|].
    apply find_limit_all; [done | done |]. by apply Hflt.
  - intros Ho. unfold find_limit, select, flt. rewrite Ho. f_equal.
    induction col as [|x col IH]; [done|].
    by rewrite filter_cons_True, IH.
Qed.

(** X13. [list_users] answers with at most 100 documents, each the
    conversion of a stored account, none showing an [_id]. With a non-empty
    [role] they all have that role, and every account of the role is listed
    when there are at most 100 of them; with no role, or an empty one, the
    answer is made of the first 100 accounts. *)
Theorem list_users_spec d role :
  ∃ out,
    list_users py_str role (Some d) = (Ok out, Some d)
    ∧ (length out ≤ 100)%nat
    ∧ (∀ x, x ∈ out →
         ∃ r r', r ∈ coll d "user" ∧ x = Some r'
                 ∧ _to_dict py_str (Some r) = Some r'
                 ∧ r' !! "_id" = None
                 ∧ (truthy_str role = true →
                    r' !! "role" = Some (VStr (default EmptyString role))))
    ∧ ((length (select [("role", VStr (default EmptyString role))]
                  (coll d "user")) ≤ 100)%nat →
       truthy_str role = true →
       ∀ r, r ∈ coll d "user" →
            r !! "role" = Some (VStr (default EmptyString role)) →
            _to_dict py_str (Some r) ∈ out)
    ∧ (truthy_str role = false →
       out = (λ r, _to_dict py_str (Some r)) <$> take 100 (coll d "user")).
Proof.
  destruct (listing_optional "role" 100 (coll d "user") role)
    as (Hlen & Hin & Hall & Hnone); [done..|].
  eexists. split; [reflexivity|]. split; [exact Hlen|]. split; [exact Hin|].
  split.
  - intros Hcount Hrole r Hr Hrr. apply Hall; [by rewrite Hrole | done | done].
  - intros Hrole. by rewrite Hnone.
Qed.

(** X14. [list_courses] answers with at most 200 documents, each the
    conversion of a stored course, none showing an [_id]. With a non-empty
    [teacher_email] they are all courses of that teacher, and all of them are
    listed when there are at most 200; with no teacher, or an empty one, the
    answer is made of the first 200 courses. *)
Theorem list_courses_spec d teacher :
  ∃ out,
    list_courses py_str teacher (Some d) = (Ok out, Some d)
    ∧ (length out ≤ 200)%nat
    ∧ (∀ x, x ∈ out →
         ∃ r r', r ∈ coll d "course" ∧ x = Some r'
                 ∧ _to_dict py_str (Some r) = Some r'
                 ∧ r' !! "_id" = None
                 ∧ (truthy_str teacher = true →
                    r' !! "teacher_email"
                    = Some (VStr (default EmptyString teacher))))
    ∧ ((length (select [("teacher_email", VStr (default EmptyString teacher))]
                  (coll d "course")) ≤ 200)%nat →
       truthy_str teacher = true →
       ∀ r, r ∈ coll d "course" →
            r !! "teacher_email" = Some (VStr (default EmptyString teacher)) →
            _to_dict py_str (Some r) ∈ out)
    ∧ (truthy_str teacher = false →
       out = (λ r, _to_dict py_str (Some r)) <$> take 200 (coll d "course")).
Proof.
  destruct (listing_optional "teacher_email" 200 (coll d "course") teacher)
    as (Hlen & Hin & Hall & Hnone); [done..|].
  eexists. split; [reflexivity|]. split; [exact Hlen|]. split; [exact Hin|].
  split.
  - intros Hcount Ht r Hr Hrr. apply Hall; [by rewrite Ht | done | done].
  - intros Ht. by rewrite Hnone.
Qed.

Lemma update_user_unfold oid d e body :
  update_user py_str oid e body (Some d)
  = (Ok (_to_dict py_str
           (find_one (email_query e)
              (update_one_set_upsert (email_query e)
                 (UserBody.model_dump_exclude_unset body) oid
                 (coll d "user")))),
     Some (<["user" := update_one_set_upsert (email_query e)
                         (UserBody.model_dump_exclude_unset body) oid
                         (coll d "user")]> d)).
Proof.
  unfold update_user, mbind, M_bind, mret, M_ret, _collection, update_one_set.
  by rewrite coll_insert_eq.
Qed.

Lemma user_dump_email body :
  UserBody.model_dump_exclude_unset body !! "email"
  = Some (VStr (UserBody.email body)).
Proof. destruct body as [[n|] e [r|] [a|] [l|] [p|]]; reflexivity. Qed.

Lemma user_dump_no_id body :
  UserBody.model_dump_exclude_unset body !! "_id" = None.
Proof. destruct body as [[n|] e [r|] [a|] [l|] [p|]]; reflexivity. Qed.

Lemma matches_email_set body (r : doc) e :
  matches (email_query e) (UserBody.model_dump_exclude_unset body ∪ r) = true
  ↔ UserBody.email body = e.
Proof.
  rewrite matches_email_query.
  rewrite (lookup_union_Some_l _ _ _ _ (user_dump_email body)).
  split; [by intros [= ->] | by intros ->].
Qed.

Lemma matches_email_set_bool body (r : doc) e :
  matches (email_query e) (UserBody.model_dump_exclude_unset body ∪ r)
  = bool_decide (UserBody.email body = e).
Proof.
  destruct (matches _ _) eqn:Hm.
  - apply matches_email_set in Hm. by rewrite bool_decide_eq_true_2.
  - rewrite bool_decide_eq_false_2; [done|]. intros He.
    apply matches_email_set with (r := r) in He. congruence.
Qed.

(** How many accounts an identity has after [update_one] on the filter
    [email = e]. *)
Lemma update_one_set_count body oid e e' col :
  length (select (email_query e')
            (update_one_set_upsert (email_query e)
               (UserBody.model_dump_exclude_unset body) oid col))
  = (length (select (email_query e') col)
     + (if bool_decide (UserBody.email body = e') then 1 else 0)
     - (if bool_decide (e = e' ∧ select (email_query e) col ≠ []) then 1 else 0))%nat.
Proof.
  unfold update_one_set_upsert.
  destruct (update_first _ _ col) as [c|] eqn:Hup.
  - apply update_first_Some in Hup as (l1 & r & l2 & -> & -> & Hr & Hl1).
    rewrite !length_select_mid, matches_email_set_bool.
    assert (select (email_query e) (l1 ++ r :: l2) ≠ []) as Hne.
    { rewrite <- find_one_None_select, find_one_app, Hl1. cbn [find_one].
      by rewrite Hr. }
    apply matches_email_query in Hr.
    destruct (decide (e = e')) as [<-|Hee].
    + rewrite (proj2 (matches_email_query r e) Hr).
      rewrite (bool_decide_eq_true_2 (e = e ∧ _)) by done.
      case_bool_decide; lia.
    + rewrite (bool_decide_eq_false_2 (e = e' ∧ _)) by (intros [? _]; done).
      destruct (matches (email_query e') r) eqn:Hm.
      { apply matches_email_query in Hm. congruence. }
      case_bool_decide; lia.
  - apply update_first_None in Hup.
    rewrite select_app, select_singleton, length_app, matches_email_set_bool.
    rewrite (bool_decide_eq_false_2 (e = e' ∧ _)).
    + case_bool_decide; cbn [length]; lia.
    + intros [_ Hne]. by apply find_one_None_select in Hup.
Qed.

Lemma update_one_set_find body oid e col :
  UserBody.email body = e →
  find_one (email_query e)
    (update_one_set_upsert (email_query e)
       (UserBody.model_dump_exclude_unset body) oid col)
  = Some (UserBody.model_dump_exclude_unset body
            ∪ default (list_to_map (email_query e) ∪ {[ "_id" := oid ]})
                (find_one (email_query e) col)).
Proof.
  intros He. unfold update_one_set_upsert.
  destruct (update_first _ _ col) as [c|] eqn:Hup.
  - apply update_first_Some in Hup as (l1 & r & l2 & -> & -> & Hr & Hl1).
    rewrite !find_one_app, Hl1. cbn [find_one]. rewrite Hr.
    by rewrite (proj2 (matches_email_set body r e) He).
  - apply update_first_None in Hup. rewrite Hup.
    apply find_one_snoc; [done|]. by apply matches_email_set.
Qed.

(** X15. [update_user] with a body whose email is the email of the path
    keeps at most one account per identity and answers with the one account
    of that identity: it carries every field the body supplied and, for the
    rest, the fields of the account found. A new account is made of the
    supplied fields and of the [_id] the store generates (defaults the body
    did not spell out are not stored), and the answer for it gives that
    [_id], as a string, under [id]. No other collection changes. *)
Theorem update_user_same_email oid d e body :
  UserBody.email body = e →
  accounts_unique d →
  ∃ d' (r' : doc),
    update_user py_str oid e body (Some d)
    = (Ok (_to_dict py_str (Some r')), Some d')
    ∧ accounts_unique d'
    ∧ select (email_query e) (coll d' "user") = [r']
    ∧ (∀ k v, UserBody.model_dump_exclude_unset body !! k = Some v →
              r' !! k = Some v)
    ∧ (∀ k, UserBody.model_dump_exclude_unset body !! k = None →
            r' !! k = match find_one (email_query e) (coll d "user") with
                      | Some r => r !! k
                      | None => if decide (k = "_id") then Some oid else None
                      end)
    ∧ (find_one (email_query e) (coll d "user") = None →
       ∃ out : doc,
         _to_dict py_str (Some r') = Some out
         ∧ out !! "id" = Some (VStr (py_str oid))
         ∧ out !! "_id" = None
         ∧ ∀ k, k ≠ "id" → k ≠ "_id" →
                out !! k = UserBody.model_dump_exclude_unset body !! k)
    ∧ ∀ name, name ≠ "user" → coll d' name = coll d name.
Proof.
  intros He Huniq.
  set (set := UserBody.model_dump_exclude_unset body).
  set (col' := update_one_set_upsert (email_query e) set oid (coll d "user")).
  set (r' := set ∪ default (list_to_map (email_query e) ∪ {[ "_id" := oid ]})
                     (find_one (email_query e) (coll d "user"))).
  assert (Hfind : find_one (email_query e) col' = Some r')
    by (by apply update_one_set_find).
  assert (Huniq' : ∀ e', (length (select (email_query e') col') ≤ 1)%nat).
  { intros e'. unfold col', set. rewrite update_one_set_count.
    specialize (Huniq e'). unfold accounts_unique in Huniq.
    destruct (decide (e = e')) as [<-|Hne].
    - rewrite (bool_decide_eq_true_2 (UserBody.email body = e)) by done.
      destruct (select (email_query e) (coll d "user")) as [|x l] eqn:Hs.
      + rewrite bool_decide_eq_false_2 by (by intros [_ ?]). cbn. lia.
      + rewrite bool_decide_eq_true_2 by done. cbn in *. lia.
    - rewrite (bool_decide_eq_false_2 (UserBody.email body = e')) by congruence.
      rewrite bool_decide_eq_false_2 by (by intros [? _]). lia. }
  assert (Hrest : ∀ k, set !! k = None →
            r' !! k = match find_one (email_query e) (coll d "user") with
                      | Some r => r !! k
                      | None => if decide (k = "_id") then Some oid else None
                      end).
  { intros k Hk. unfold r'. rewrite lookup_union_r by done.
    destruct (find_one (email_query e) (coll d "user")) as [r|]; [done|].
    cbn. unfold email_query. cbn [list_to_map foldr uncurry fst snd].
    assert (k ≠ "email") as Hke
      by (intros ->; unfold set in Hk; by rewrite user_dump_email in Hk).
    case_decide as Hid.
    - subst k. by rewrite lookup_union_r, lookup_singleton_eq
        by (by rewrite lookup_insert_ne, lookup_empty).
    - rewrite lookup_union_l by (by rewrite lookup_singleton_ne).
      by rewrite lookup_insert_ne, lookup_empty. }
  exists (<["user" := col']> d), r'.
  split; [rewrite update_user_unfold; fold set col'; by rewrite Hfind|].
  split; [intros e'; by rewrite coll_insert_eq|].
  rewrite coll_insert_eq. split.
  { rewrite find_one_select in Hfind. specialize (Huniq' e).
    destruct (select (email_query e) col') as [|x [|y rest]];
      cbn in *; [done | congruence | lia]. }
  split.
  { intros k v Hk. unfold r'. by apply lookup_union_Some_l. }
  split; [exact Hrest|].
  split; [|intros name Hn; by rewrite coll_insert_ne].
  intros Hnone.
  assert (Hid : r' !! "_id" = Some oid).
  { rewrite Hrest by apply user_dump_no_id. by rewrite Hnone. }
  destruct (to_dict_fields py_str r') as (out & Hout & Hno & Hi & Hk).
  exists out. split; [done|]. rewrite Hid in Hi. split; [done|].
  split; [done|]. intros k H1 H2. rewrite Hk by done.
  destruct (set !! k) as [v|] eqn:Hs.
  - unfold r'. by apply lookup_union_Some_l.
  - rewrite Hrest, Hnone by done. by rewrite decide_False.
Qed.

(** X16. [update_user] with a body whose email differs from the email of the
    path moves an account instead of editing it: the body's identity gains
    one account, even when it already has one, the path's identity loses
    one, if it has any, and the answer is [null] unless the path's identity
    had more than one account. *)
Theorem update_user_other_email oid d e body :
  UserBody.email body ≠ e →
  ∃ d' out,
    update_user py_str oid e body (Some d) = (Ok out, Some d')
    ∧ length (select (email_query (UserBody.email body)) (coll d' "user"))
      = S (length (select (email_query (UserBody.email body)) (coll d "user")))
    ∧ length (select (email_query e) (coll d' "user"))
      = pred (length (select (email_query e) (coll d "user")))
    ∧ ((length (select (email_query e) (coll d "user")) ≤ 1)%nat → out = None).
Proof.
  intros Hne. eexists _, _. split; [apply update_user_unfold|].
  rewrite coll_insert_eq, !update_one_set_count.
  rewrite (bool_decide_eq_true_2 (UserBody.email body = UserBody.email body))
    by done.
  rewrite (bool_decide_eq_false_2 (e = UserBody.email body ∧ _))
    by (intros [? _]; congruence).
  rewrite (bool_decide_eq_false_2 (UserBody.email body = e)) by done.
  split; [lia|].
  assert (Hafter :
    length (select (email_query e)
              (update_one_set_upsert (email_query e)
                 (UserBody.model_dump_exclude_unset body) oid (coll d "user")))
    = pred (length (select (email_query e) (coll d "user")))).
  { rewrite update_one_set_count.
    rewrite (bool_decide_eq_false_2 (UserBody.email body = e)) by done.
    destruct (select (email_query e) (coll d "user")) as [|x l] eqn:Hs.
    - rewrite bool_decide_eq_false_2 by (by intros [_ ?]). cbn. lia.
    - rewrite bool_decide_eq_true_2 by done. cbn. lia. }
  split.
  - destruct (select (email_query e) (coll d "user")) as [|x l] eqn:Hs.
    + rewrite bool_decide_eq_false_2 by (by intros [_ ?]). cbn. lia.
    + rewrite bool_decide_eq_true_2 by done. cbn. lia.
  - intros Hle.
    assert (select (email_query e)
              (update_one_set_upsert (email_query e)
                 (UserBody.model_dump_exclude_unset body) oid
                 (coll d "user")) = [])
      as Hnil by (apply length_zero_iff_nil; lia).
    apply find_one_None_select in Hnil. by rewrite Hnil.
Qed.

End AccountsMore.

Lemma update_user_same_email_witness :
  UserBody.email (body_named "c@x.com") = "c@x.com"
  ∧ accounts_unique store_two_accounts
  ∧ ∃ d' (r' : doc),
      update_user (λ _, "id") (VStr "oid") "c@x.com" (body_named "c@x.com")
        (Some store_two_accounts)
      = (Ok (_to_dict (λ _, "id") (Some r')), Some d')
      ∧ accounts_unique d'
      ∧ select (email_query "c@x.com") (coll d' "user") = [r']
      ∧ (∀ k v, UserBody.model_dump_exclude_unset (body_named "c@x.com") !! k
                = Some v → r' !! k = Some v)
      ∧ (∀ k, UserBody.model_dump_exclude_unset (body_named "c@x.com") !! k
              = None →
              r' !! k
              = match find_one (email_query "c@x.com")
                        (coll store_two_accounts "user") with
                | Some r => r !! k
                | None => if decide (k = "_id") then Some (VStr "oid") else None
                end)
      ∧ (find_one (email_query "c@x.com") (coll store_two_accounts "user")
         = None →
         ∃ out : doc,
           _to_dict (λ _, "id") (Some r') = Some out
           ∧ out !! "id" = Some (VStr ((λ _ : value, "id") (VStr "oid")))
           ∧ out !! "_id" = None
           ∧ ∀ k, k ≠ "id" → k ≠ "_id" →
                  out !! k
                  = UserBody.model_dump_exclude_unset (body_named "c@x.com")
                      !! k)
      ∧ ∀ name, name ≠ "user" → coll d' name = coll store_two_accounts name.
Proof.
  assert (accounts_unique store_two_accounts) as Hu.
  { intros e. change (coll store_two_accounts "user")
      with [default_account "a@x.com"; default_account "b@x.com"].
    change [default_account "a@x.com"; default_account "b@x.com"]
      with ([default_account "a@x.com"] ++ [default_account "b@x.com"]).
    rewrite select_app, !select_singleton, length_app.
    destruct (matches (email_query e) (default_account "a@x.com")) eqn:Ha;
      destruct (matches (email_query e) (default_account "b@x.com")) eqn:Hb;
      cbn [length]; try lia.
    apply matches_default_account in Ha. apply matches_default_account in Hb.
    congruence. }
  split; [reflexivity|]. split; [exact Hu|].
  apply (update_user_same_email (λ _, "id") (VStr "oid") store_two_accounts
           "c@x.com" (body_named "c@x.com")); [reflexivity | exact Hu].
Defined.

Lemma update_user_other_email_witness :
  UserBody.email (body_named "b@x.com") ≠ "a@x.com"
  ∧ ∃ d' out,
      update_user (λ _, "id") (VStr "oid") "a@x.com" (body_named "b@x.com")
        (Some store_two_accounts)
      = (Ok out, Some d')
      ∧ length (select (email_query (UserBody.email (body_named "b@x.com")))
                  (coll d' "user"))
        = S (length (select (email_query (UserBody.email (body_named "b@x.com")))
                       (coll store_two_accounts "user")))
      ∧ length (select (email_query "a@x.com") (coll d' "user"))
        = pred (length (select (email_query "a@x.com")
                          (coll store_two_accounts "user")))
      ∧ ((length (select (email_query "a@x.com")
                    (coll store_two_accounts "user")) ≤ 1)%nat → out = None).
Proof.
  assert (UserBody.email (body_named "b@x.com") ≠ "a@x.com") as Hne
    by discriminate.
  split; [exact Hne|].
  apply (update_user_other_email (λ _, "id") (VStr "oid") store_two_accounts
           "a@x.com" (body_named "b@x.com") Hne).
Defined.

(** ** Sorted listings *)

Section Ordering.

Lemma ascii_compare_refl a : Ascii.compare a a = Eq.
Proof. unfold Ascii.compare. apply N.compare_refl. Qed.

Lemma ascii_compare_lt_trans a b c :
  Ascii.compare a b = Lt → Ascii.compare b c = Lt → Ascii.compare a c = Lt.
Proof.
  unfold Ascii.compare. rewrite !N.compare_lt_iff. apply N.lt_trans.
Qed.

Lemma string_leb_trans s1 : ∀ s2 s3,
  String.leb s1 s2 = true → String.leb s2 s3 = true → String.leb s1 s3 = true.
Proof.
  induction s1 as [|a s1 IH]; intros [|b s2] [|c s3]; unfold String.leb;
    cbn [String.compare]; try done.
  destruct (Ascii.compare a b) eqn:Hab, (Ascii.compare b c) eqn:Hbc;
    try done.
  - apply Ascii.compare_eq_iff in Hab as ->.
    apply Ascii.compare_eq_iff in Hbc as ->.
    rewrite ascii_compare_refl. apply IH.
  - apply Ascii.compare_eq_iff in Hab as ->. by rewrite Hbc.
  - apply Ascii.compare_eq_iff in Hbc as <-. by rewrite Hab.
  - by rewrite (ascii_compare_lt_trans a b c).
Qed.

Lemma bson_leb_total v w : bson_leb v w = true ∨ bson_leb w v = true.
Proof.
  destruct v as [|a|a|a|a], w as [|b|b|b|b]; cbn;
    try (by left); try (by right).
  - destruct a, b; cbn; auto.
  - rewrite !Z.leb_le. lia.
  - apply String.leb_total.
  - rewrite !Z.leb_le. lia.
Qed.

Lemma bson_leb_trans u v w :
  bson_leb u v = true → bson_leb v w = true → bson_leb u w = true.
Proof.
  destruct u as [|a|a|a|a], v as [|b|b|b|b], w as [|c|c|c|c]; cbn;
    try done.
  - destruct a, b, c; done.
  - rewrite !Z.leb_le. lia.
  - apply string_leb_trans.
  - rewrite !Z.leb_le. lia.
Qed.

#[local] Instance field_order_total field direction :
  Total (field_order field direction).
Proof.
  intros a b. unfold field_order. destruct (direction =? 1);
    [apply bson_leb_total | destruct (bson_leb_total (get a field) (get b field)); auto].
Qed.

#[local] Instance field_order_trans field direction :
  Transitive (field_order field direction).
Proof.
  intros a b c. unfold field_order. destruct (direction =? 1).
  - apply bson_leb_trans.
  - intros H1 H2. by apply (bson_leb_trans _ (get b field)).
Qed.

(** What [find(flt).sort(field, direction).limit(n)] returns: at most [n]
    selected records, in order, and the cut is made at the far end. *)
Lemma find_sort_limit_spec flt field direction n (col : list doc) :
  (length (find_sort_limit flt field direction n col) ≤ n)%nat
  ∧ (∀ r, r ∈ find_sort_limit flt field direction n col →
          r ∈ col ∧ matches flt r = true)
  ∧ StronglySorted (field_order field direction)
      (find_sort_limit flt field direction n col)
  ∧ ∀ r, r ∈ col → matches flt r = true →
         r ∈ find_sort_limit flt field direction n col
         ∨ (length (find_sort_limit flt field direction n col) = n
            ∧ ∀ x, x ∈ find_sort_limit flt field direction n col →
                   field_order field direction x r).
Proof.
  unfold find_sort_limit.
  set (sorted := merge_sort (field_order field direction) (select flt col)).
  assert (Hperm : sorted ≡ₚ select flt col) by apply merge_sort_Permutation.
  assert (Hsorted : StronglySorted (field_order field direction) sorted)
    by apply (StronglySorted_merge_sort (field_order field direction)).
  assert (Hsel : ∀ r, r ∈ select flt col ↔ r ∈ col ∧ matches flt r = true).
  { intros r. unfold select. rewrite list_elem_of_filter.
    destruct (matches flt r); cbn; split; intros [? ?]; done. }
  split; [rewrite length_take; lia|]. split; [|split].
  - intros r Hr%subseteq_take. rewrite Hperm in Hr. by apply Hsel.
  - apply (StronglySorted_app_1_l _ _ (drop n sorted)). by rewrite take_drop.
  - intros r Hin Hm.
    assert (r ∈ sorted) as Hr by (rewrite Hperm; by apply Hsel).
    apply list_elem_of_lookup in Hr as [i Hi].
    destruct (decide (i < n)%nat) as [Hlt|Hge].
    + left. apply list_elem_of_lookup. exists i. by rewrite lookup_take_lt.
    + right. pose proof (lookup_lt_Some _ _ _ Hi) as Hlen.
      split; [rewrite length_take; lia|].
      intros x Hx. rewrite <- (take_drop n sorted) in Hsorted.
      apply (StronglySorted_app_1_elem_of _ _ _ x r Hsorted Hx).
      apply list_elem_of_lookup. exists (i - n)%nat.
      rewrite lookup_drop. rewrite <- Hi. f_equal. lia.
Qed.

Variable py_str : value → string.

(** X17. [list_lessons] answers with the conversions of at most 500 stored
    lessons of the course, in ascending order of their [order] field (a
    missing one counting as null); a lesson of the course that is left out
    is left out only because the answer is full, and then no listed lesson
    comes after it. *)
Theorem list_lessons_spec d c :
  ∃ docs,
    list_lessons py_str c (Some d)
    = (Ok ((λ r, _to_dict py_str (Some r)) <$> docs), Some d)
    ∧ (length docs ≤ 500)%nat
    ∧ (∀ r, r ∈ docs →
            r ∈ coll d "lesson" ∧ r !! "course_id" = Some (VStr c))
    ∧ StronglySorted
        (λ a b, bson_leb (get a "order") (get b "order") = true) docs
    ∧ ∀ r, r ∈ coll d "lesson" → r !! "course_id" = Some (VStr c) →
           r ∈ docs
           ∨ (length docs = 500%nat
              ∧ ∀ x, x ∈ docs →
                     bson_leb (get x "order") (get r "order") = true).
Proof.
  destruct (find_sort_limit_spec [("course_id", VStr c)] "order" 1 500
              (coll d "lesson")) as (Hlen & Hin & Hsorted & Hcut).
  assert (Hflt : ∀ r : doc, matches [("course_id", VStr c)] r = true
                            ↔ r !! "course_id" = Some (VStr c)).
  { intros r. unfold matches. cbn [forallb].
    by rewrite andb_true_r, matches_cond_str. }
  eexists. split; [reflexivity|]. split; [exact Hlen|].
  split; [intros r Hr; destruct (Hin r Hr); split; [done | by apply Hflt]|].
  split; [exact Hsorted|].
  intros r Hr Hc. apply Hcut; [done | by apply Hflt].
Qed.

(** X18. [list_messages] answers with the conversions of at most 200 stored
    messages of the course, in descending order of their [created_at] field;
    a message of the course that is left out is left out only because the
    answer is full, and then no listed message is older than it. *)
Theorem list_messages_spec d c :
  ∃ docs,
    list_messages py_str c (Some d)
    = (Ok ((λ r, _to_dict py_str (Some r)) <$> docs), Some d)
    ∧ (length docs ≤ 200)%nat
    ∧ (∀ r, r ∈ docs →
            r ∈ coll d "discussion" ∧ r !! "course_id" = Some (VStr c))
    ∧ StronglySorted
        (λ a b, bson_leb (get b "created_at") (get a "created_at") = true) docs
    ∧ ∀ r, r ∈ coll d "discussion" → r !! "course_id" = Some (VStr c) →
           r ∈ docs
           ∨ (length docs = 200%nat
              ∧ ∀ x, x ∈ docs →
                     bson_leb (get r "created_at") (get x "created_at") = true).
Proof.
  destruct (find_sort_limit_spec [("course_id", VStr c)] "created_at" (-1) 200
              (coll d "discussion")) as (Hlen & Hin & Hsorted & Hcut).
  assert (Hflt : ∀ r : doc, matches [("course_id", VStr c)] r = true
                            ↔ r !! "course_id" = Some (VStr c)).
  { intros r. unfold matches. cbn [forallb].
    by rewrite andb_true_r, matches_cond_str. }
  eexists. split; [reflexivity|]. split; [exact Hlen|].
  split; [intros r Hr; destruct (Hin r Hr); split; [done | by apply Hflt]|].
  split; [exact Hsorted|].
  intros r Hr Hc. apply Hcut; [done | by apply Hflt].
Qed.

End Ordering.
